(** * Bounce: the frame loop of [bounce.cpp] and the classes of [game.h]

    A shallow embedding of the game: the SFML value types the code relies on,
    the four entity classes ([Platform], [Wall], [Obstacle], [Coin]),
    [resetGame], and the body of the [while (window.isOpen())] loop of [main],
    followed by the properties of the game's specification.

    Numbers.  The C++ [float] is embedded as an exact rational ([Q]): the
    arithmetic and the comparisons are those of the source, without the
    rounding, the infinities and the NaN of binary32.  Equalities between
    computed coordinates are therefore stated with [==].  The C++ [int] of the
    coin counter is a [Z] with its 32-bit wrap-around written out. *)

From Stdlib Require Import QArith Qabs ZArith List Bool String DecimalString Lia Lra Psatz.
Import ListNotations.
Open Scope Q_scope.

(** ** Scalars *)

Definition float : Set := Q.

(** [a < b], [a <= b], [a > b], [a >= b] on [float], as booleans. *)
Definition fltb (a b : float) : bool := negb (Qle_bool b a).
Definition fleb (a b : float) : bool := Qle_bool a b.
Definition fgtb (a b : float) : bool := fltb b a.
Definition fgeb (a b : float) : bool := fleb b a.

(** [int]: two's complement on 32 bits. *)
Definition int_wrap (z : Z) : Z := ((z + 2 ^ 31) mod 2 ^ 32 - 2 ^ 31)%Z.
Definition INT_MAX : Z := (2 ^ 31 - 1)%Z.

(** [n++] on an [int]. *)
Definition int_incr (n : Z) : Z := int_wrap (n + 1).

(** ** The SFML types used by the game

    SFML is the game's graphics library, an external collaborator (section 1
    of the specification).  The module below holds the part of its value
    types the game reads and writes.  No shape of the game is rotated, scaled
    or given an origin or an outline, so the global bounds of a shape are
    its local bounds translated by its position. *)
Module sf.

Record Vector2f : Set := Vec { x : float; y : float }.

Record FloatRect : Set :=
  Rect { left : float; top : float; width : float; height : float }.

(** [std::min] and [std::max]. *)
Definition min (a b : float) : float := if fltb b a then b else a.
Definition max (a b : float) : float := if fltb a b then b else a.

(** Modelled from the spec: [Rect<T>::intersects], the "axis-aligned
    rectangle intersection test" the game takes from the library.  The
    intersection has a positive area; rectangles of negative size are put
    the right way round first. *)
Definition intersects (r1 r2 : FloatRect) : bool :=
  let r1MinX := min (left r1) (left r1 + width r1) in
  let r1MaxX := max (left r1) (left r1 + width r1) in
  let r1MinY := min (top r1) (top r1 + height r1) in
  let r1MaxY := max (top r1) (top r1 + height r1) in
  let r2MinX := min (left r2) (left r2 + width r2) in
  let r2MaxX := max (left r2) (left r2 + width r2) in
  let r2MinY := min (top r2) (top r2 + height r2) in
  let r2MaxY := max (top r2) (top r2 + height r2) in
  let interLeft := max r1MinX r2MinX in
  let interTop := max r1MinY r2MinY in
  let interRight := min r1MaxX r2MaxX in
  let interBottom := min r1MaxY r2MaxY in
  fltb interLeft interRight && fltb interTop interBottom.

Module CircleShape.
Record t : Set := Make { getRadius : float; getPosition : Vector2f }.

Definition setPosition (px py : float) (c : t) : t :=
  Make (getRadius c) (Vec px py).

(** [Transformable::move]. *)
Definition move (offset : Vector2f) (c : t) : t :=
  Make (getRadius c)
       (Vec (x (getPosition c) + x offset) (y (getPosition c) + y offset)).

(** Modelled from the spec: the bounding box of the circle, taken as its
  enclosing square of side [2 * radius] with its corner at the position,
  as in the data model of the specification ("circular body with position
  (x,y), fixed radius"). *)
Definition getGlobalBounds (c : t) : FloatRect :=
  Rect (x (getPosition c)) (y (getPosition c))
       (getRadius c * 2) (getRadius c * 2).
End CircleShape.

Module RectangleShape.
Record t : Set := Make { getSize : Vector2f; getPosition : Vector2f }.

Definition move (dx dy : float) (r : t) : t :=
  Make (getSize r) (Vec (x (getPosition r) + dx) (y (getPosition r) + dy)).

(** Modelled from the spec: the bounding box of the rectangle, that of its
  four corners [(0,0)], [(w,0)], [(w,h)], [(0,h)] translated by the
  position. *)
Definition getGlobalBounds (r : t) : FloatRect :=
  let w := x (getSize r) in
  let h := y (getSize r) in
  Rect (x (getPosition r) + min 0 w) (y (getPosition r) + min 0 h)
       (max 0 w - min 0 w) (max 0 h - min 0 h).
End RectangleShape.

Record View : Set := MakeView { getCenter : Vector2f; getSize : Vector2f }.

Definition setCenter (cx cy : float) (v : View) : View :=
  MakeView (Vec cx cy) (getSize v).

(** [sf::Text]: the string it shows and where. *)
Record Text : Set := MakeText { getString : string; getTextPosition : Vector2f }.

(** [sf::Keyboard::Key], as far as the game names keys. *)
Inductive Key : Set := KeyA | KeyR | KeyUp | KeyLeft | KeyRight | KeySpace | KeyUnknown.

Definition Key_eqb (a b : Key) : bool :=
  match a, b with
  | KeyA, KeyA | KeyR, KeyR | KeyUp, KeyUp | KeyLeft, KeyLeft
  | KeyRight, KeyRight | KeySpace, KeySpace | KeyUnknown, KeyUnknown => true
  | _, _ => false
  end.

Inductive EventType : Set :=
  Closed | KeyPressed | KeyReleased | MouseMoved | OtherEvent.

(** [sf::Event]: its type and what reading [event.key.code] gives.  The
    event is a tagged union, and the game reads [key.code] whatever the
    tag, so every event carries the value that read yields. *)
Record Event : Set := MakeEvent { type : EventType; key_code : Key }.

End sf.

(** ** The classes of [game.h] *)

Module Platform.
Record t : Set := Make { shape : sf.RectangleShape.t }.

(** [Platform::Platform(width, height, x, y, color)] *)
Definition new (width height px py : float) : t :=
  Make (sf.RectangleShape.Make (sf.Vec width height) (sf.Vec px py)).
End Platform.

Module Wall.
Record t : Set := Make { shape : sf.RectangleShape.t }.

(** [Wall::Wall(width, height, x, y, color)] *)
Definition new (width height px py : float) : t :=
  Make (sf.RectangleShape.Make (sf.Vec width height) (sf.Vec px py)).
End Wall.

Module Obstacle.
Record t : Set :=
  Make { shape : sf.RectangleShape.t;
         velocityX : float;
         leftLimit : float;
         rightLimit : float }.

(** [Obstacle::Obstacle(width, height, x, y, leftLimit, rightLimit, color)] *)
Definition new (width height px py lo hi : float) : t :=
  Make (sf.RectangleShape.Make (sf.Vec width height) (sf.Vec px py)) 2 lo hi.

(** The test of [Obstacle::move], on the shape already moved. *)
Definition atLimit (o : t) : bool :=
  fleb (sf.x (sf.RectangleShape.getPosition (shape o))) (leftLimit o)
  || fgeb (sf.x (sf.RectangleShape.getPosition (shape o))
           + sf.x (sf.RectangleShape.getSize (shape o)))
          (rightLimit o).

(** [void Obstacle::move()] *)
Definition move (o : t) : t :=
  let o1 := Make (sf.RectangleShape.move (velocityX o) 0 (shape o))
                 (velocityX o) (leftLimit o) (rightLimit o) in
  if atLimit o1
  then Make (shape o1) (- velocityX o1) (leftLimit o1) (rightLimit o1)
  else o1.

(** The test of [Obstacle::handleWallCollision]. *)
Definition touches (wall : Wall.t) (o : t) : bool :=
  sf.intersects (sf.RectangleShape.getGlobalBounds (shape o))
                (sf.RectangleShape.getGlobalBounds (Wall.shape wall)).

(** [void Obstacle::handleWallCollision(const Wall& wall)] *)
Definition handleWallCollision (wall : Wall.t) (o : t) : t :=
  if touches wall o
  then Make (shape o) (- velocityX o) (leftLimit o) (rightLimit o)
  else o.
End Obstacle.

Module Coin.
Record t : Set := Make { shape : sf.CircleShape.t }.

(** [Coin::Coin(radius, x, y)] *)
Definition new (radius px py : float) : t :=
  Make (sf.CircleShape.Make radius (sf.Vec px py)).

(** [bool Coin::isCollected(const sf::CircleShape& player)] *)
Definition isCollected (player : sf.CircleShape.t) (c : t) : bool :=
  sf.intersects (sf.CircleShape.getGlobalBounds player)
                (sf.CircleShape.getGlobalBounds (shape c)).
End Coin.

(** ** The local variables of [main]

    Everything the loop reads or writes.  The geometry of the level lives in
    the same record as the player: in the source they are all locals of
    [main], equally writable.  Colours, the font and the texture are left
    out: no test of the game reads them. *)

Record World : Set :=
  MakeWorld {
    window_open : bool;
    view : sf.View;
    player : sf.CircleShape.t;
    velocity : sf.Vector2f;
    isOnGround : bool;
    levelCompleted : bool;
    platforms : list Platform.t;
    goal : Platform.t;
    floor : Platform.t;
    walls : list Wall.t;
    obstacles : list Obstacle.t;
    defaultCoinPositions : list sf.Vector2f;
    coins : list Coin.t;
    coinCount : Z;
    coinText : sf.Text;
    victorySprite : sf.Vector2f }.

Definition with_window_open (v : bool) (w : World) : World :=
  MakeWorld v (view w) (player w) (velocity w) (isOnGround w)
    (levelCompleted w) (platforms w) (goal w) (floor w) (walls w)
    (obstacles w) (defaultCoinPositions w) (coins w) (coinCount w)
    (coinText w) (victorySprite w).

Definition with_view (v : sf.View) (w : World) : World :=
  MakeWorld (window_open w) v (player w) (velocity w) (isOnGround w)
    (levelCompleted w) (platforms w) (goal w) (floor w) (walls w)
    (obstacles w) (defaultCoinPositions w) (coins w) (coinCount w)
    (coinText w) (victorySprite w).

Definition with_player (v : sf.CircleShape.t) (w : World) : World :=
  MakeWorld (window_open w) (view w) v (velocity w) (isOnGround w)
    (levelCompleted w) (platforms w) (goal w) (floor w) (walls w)
    (obstacles w) (defaultCoinPositions w) (coins w) (coinCount w)
    (coinText w) (victorySprite w).

Definition with_velocity (v : sf.Vector2f) (w : World) : World :=
  MakeWorld (window_open w) (view w) (player w) v (isOnGround w)
    (levelCompleted w) (platforms w) (goal w) (floor w) (walls w)
    (obstacles w) (defaultCoinPositions w) (coins w) (coinCount w)
    (coinText w) (victorySprite w).

Definition with_isOnGround (v : bool) (w : World) : World :=
  MakeWorld (window_open w) (view w) (player w) (velocity w) v
    (levelCompleted w) (platforms w) (goal w) (floor w) (walls w)
    (obstacles w) (defaultCoinPositions w) (coins w) (coinCount w)
    (coinText w) (victorySprite w).

Definition with_levelCompleted (v : bool) (w : World) : World :=
  MakeWorld (window_open w) (view w) (player w) (velocity w) (isOnGround w) v
    (platforms w) (goal w) (floor w) (walls w) (obstacles w)
    (defaultCoinPositions w) (coins w) (coinCount w) (coinText w)
    (victorySprite w).

Definition with_obstacles (v : list Obstacle.t) (w : World) : World :=
  MakeWorld (window_open w) (view w) (player w) (velocity w) (isOnGround w)
    (levelCompleted w) (platforms w) (goal w) (floor w) (walls w) v
    (defaultCoinPositions w) (coins w) (coinCount w) (coinText w)
    (victorySprite w).

Definition with_coins (v : list Coin.t) (w : World) : World :=
  MakeWorld (window_open w) (view w) (player w) (velocity w) (isOnGround w)
    (levelCompleted w) (platforms w) (goal w) (floor w) (walls w)
    (obstacles w) (defaultCoinPositions w) v (coinCount w) (coinText w)
    (victorySprite w).

Definition with_coinCount (v : Z) (w : World) : World :=
  MakeWorld (window_open w) (view w) (player w) (velocity w) (isOnGround w)
    (levelCompleted w) (platforms w) (goal w) (floor w) (walls w)
    (obstacles w) (defaultCoinPositions w) (coins w) v (coinText w)
    (victorySprite w).

Definition with_coinText (v : sf.Text) (w : World) : World :=
  MakeWorld (window_open w) (view w) (player w) (velocity w) (isOnGround w)
    (levelCompleted w) (platforms w) (goal w) (floor w) (walls w)
    (obstacles w) (defaultCoinPositions w) (coins w) (coinCount w) v
    (victorySprite w).

Definition with_victorySprite (v : sf.Vector2f) (w : World) : World :=
  MakeWorld (window_open w) (view w) (player w) (velocity w) (isOnGround w)
    (levelCompleted w) (platforms w) (goal w) (floor w) (walls w)
    (obstacles w) (defaultCoinPositions w) (coins w) (coinCount w)
    (coinText w) v.

Definition gravity : float := 1 # 2.
Definition jumpStrength : float := - (12).
Definition groundFriction : float := 9 # 10.

(** ** [resetGame]

    The function receives the player, the velocity, the two flags, the view,
    the counter and the coins by reference and the default positions by
    constant reference; those are the fields it can touch. *)
Definition resetGame (w : World) : World :=
  let w := with_player (sf.CircleShape.setPosition 400 300 (player w)) w in
  let w := with_velocity (sf.Vec 0 0) w in
  let w := with_isOnGround false w in
  let w := with_levelCompleted false w in
  let w := with_coinCount 0%Z w in
  let w := with_view (sf.setCenter 400 300 (view w)) w in
  let w := with_coins [] w in
  with_coins
    (fold_left (fun cs pos => cs ++ [Coin.new 10 (sf.x pos) (sf.y pos)])
               (defaultCoinPositions w) (coins w))
    w.

(** ** One turn of the loop of [main] *)

(** What a frame takes from outside: the events waiting in the window's
    queue and the state of the keyboard. *)
Record Input : Type :=
  MakeInput { events : list sf.Event; isKeyPressed : sf.Key -> bool }.

Definition isClosed (e : sf.Event) : bool :=
  match sf.type e with sf.Closed => true | _ => false end.

Definition isKeyPressedEvent (e : sf.Event) : bool :=
  match sf.type e with sf.KeyPressed => true | _ => false end.

(** The two nested tests that guard the call of [resetGame] in the event
    loop. *)
Definition restartRequested (e : sf.Event) (w : World) : bool :=
  (levelCompleted w || isKeyPressedEvent e) && sf.Key_eqb (sf.key_code e) sf.KeyR.

(** The body of [while (window.pollEvent(event))]. *)
Definition handleEvent (e : sf.Event) (w : World) : World :=
  let w := if isClosed e then with_window_open false w else w in
  if restartRequested e w then resetGame w else w.

Definition pollEvents (evs : list sf.Event) (w : World) : World :=
  fold_left (fun w e => handleEvent e w) evs w.

(** Left, right, or friction. *)
Definition steer (inp : Input) (w : World) : World :=
  if isKeyPressed inp sf.KeyLeft
  then with_velocity (sf.Vec (- (5)) (sf.y (velocity w))) w
  else if isKeyPressed inp sf.KeyRight
  then with_velocity (sf.Vec 5 (sf.y (velocity w))) w
  else with_velocity (sf.Vec (sf.x (velocity w) * groundFriction) (sf.y (velocity w))) w.

Definition jump (inp : Input) (w : World) : World :=
  if isKeyPressed inp sf.KeyUp && isOnGround w
  then with_isOnGround false (with_velocity (sf.Vec (sf.x (velocity w)) jumpStrength) w)
  else w.

Definition applyGravity (w : World) : World :=
  with_velocity (sf.Vec (sf.x (velocity w)) (sf.y (velocity w) + gravity)) w.

Definition movePlayer (w : World) : World :=
  with_player (sf.CircleShape.move (velocity w) (player w)) w.

(** The lambda [platformCollision]. *)
Definition platformCollision (platform : Platform.t) (w : World) : World :=
  if sf.intersects (sf.CircleShape.getGlobalBounds (player w))
                   (sf.RectangleShape.getGlobalBounds (Platform.shape platform))
  then
    if fgtb (sf.y (velocity w)) 0
    then
      let w := with_player
                 (sf.CircleShape.setPosition
                    (sf.x (sf.CircleShape.getPosition (player w)))
                    (sf.y (sf.RectangleShape.getPosition (Platform.shape platform))
                     - sf.CircleShape.getRadius (player w) * 2)
                    (player w)) w in
      let w := with_velocity
                 (sf.Vec (sf.x (velocity w)) (- sf.y (velocity w) * (7 # 10))) w in
      with_isOnGround true w
    else w
  else w.

(** [std::for_each(platforms.begin(), platforms.end(), platformCollision)] *)
Definition platformCollisions (w : World) : World :=
  fold_left (fun w p => platformCollision p w) (platforms w) w.

(** The same test, written out a second time in the source for the floor. *)
Definition floorCollision (w : World) : World :=
  if sf.intersects (sf.CircleShape.getGlobalBounds (player w))
                   (sf.RectangleShape.getGlobalBounds (Platform.shape (floor w)))
  then
    if fgtb (sf.y (velocity w)) 0
    then
      let w := with_player
                 (sf.CircleShape.setPosition
                    (sf.x (sf.CircleShape.getPosition (player w)))
                    (sf.y (sf.RectangleShape.getPosition (Platform.shape (floor w)))
                     - sf.CircleShape.getRadius (player w) * 2)
                    (player w)) w in
      let w := with_velocity
                 (sf.Vec (sf.x (velocity w)) (- sf.y (velocity w) * (7 # 10))) w in
      with_isOnGround true w
    else w
  else w.

(** The two branches of the lambda [wallCollision], as tests on the bounds
    taken at its entry. *)
Definition hitsFromLeft (vel : sf.Vector2f) (playerBounds wallBounds : sf.FloatRect) : bool :=
  fgtb (sf.x vel) 0
  && fgtb (sf.left playerBounds + sf.width playerBounds) (sf.left wallBounds)
  && fltb (sf.left playerBounds) (sf.left wallBounds).

Definition hitsFromRight (vel : sf.Vector2f) (playerBounds wallBounds : sf.FloatRect) : bool :=
  fltb (sf.x vel) 0
  && fltb (sf.left playerBounds) (sf.left wallBounds + sf.width wallBounds)
  && fgtb (sf.left playerBounds + sf.width playerBounds)
          (sf.left wallBounds + sf.width wallBounds).

(** The lambda [wallCollision]. *)
Definition wallCollision (wall : Wall.t) (w : World) : World :=
  let playerBounds := sf.CircleShape.getGlobalBounds (player w) in
  let wallBounds := sf.RectangleShape.getGlobalBounds (Wall.shape wall) in
  if sf.intersects (sf.CircleShape.getGlobalBounds (player w))
                   (sf.RectangleShape.getGlobalBounds (Wall.shape wall))
  then
    if hitsFromLeft (velocity w) playerBounds wallBounds
    then
      let w := with_player
                 (sf.CircleShape.setPosition
                    (sf.left wallBounds - sf.width playerBounds)
                    (sf.y (sf.CircleShape.getPosition (player w)))
                    (player w)) w in
      with_velocity (sf.Vec 0 (sf.y (velocity w))) w
    else if hitsFromRight (velocity w) playerBounds wallBounds
    then
      let w := with_player
                 (sf.CircleShape.setPosition
                    (sf.left wallBounds + sf.width wallBounds)
                    (sf.y (sf.CircleShape.getPosition (player w)))
                    (player w)) w in
      with_velocity (sf.Vec 0 (sf.y (velocity w))) w
    else w
  else w.

(** [std::for_each(walls.begin(), walls.end(), wallCollision)] *)
Definition wallCollisions (w : World) : World :=
  fold_left (fun w wall => wallCollision wall w) (walls w) w.

(** What one turn of [for (auto& obstacle : obstacles)] does to the obstacle
    itself: [move], then [handleWallCollision] for each wall. *)
Definition patrol (ws : list Wall.t) (o : Obstacle.t) : Obstacle.t :=
  fold_left (fun o wall => Obstacle.handleWallCollision wall o) ws (Obstacle.move o).

(** The test that guards [resetGame] in the obstacle loop. *)
Definition hitsPlayer (o : Obstacle.t) (w : World) : bool :=
  sf.intersects (sf.CircleShape.getGlobalBounds (player w))
                (sf.RectangleShape.getGlobalBounds (Obstacle.shape o)).

(** The body of the obstacle loop: the obstacle as it leaves the turn, and
    the world. *)
Definition obstacleTurn (o : Obstacle.t) (w : World) : Obstacle.t * World :=
  let o := patrol (walls w) o in
  (o, if hitsPlayer o w then resetGame w else w).

(** The loop over the obstacles still to visit.  The vector is updated in
    place; nothing in the loop reads it through the world, so the visited
    obstacles are collected and stored at the end. *)
Fixpoint obstacleLoop (todo : list Obstacle.t) (w : World) : list Obstacle.t * World :=
  match todo with
  | [] => ([], w)
  | o :: rest =>
      let (o', w1) := obstacleTurn o w in
      let (rest', w2) := obstacleLoop rest w1 in
      (o' :: rest', w2)
  end.

Definition obstacleScan (w : World) : World :=
  let (os, w') := obstacleLoop (obstacles w) w in
  with_obstacles os w'.

(** [std::remove_if] with the lambda [collectCoin]: the predicate runs once
    on each coin, front to back, and counts as it goes; the coins it refuses
    keep their order.  [erase] then drops the tail. *)
Fixpoint removeCollected (p : sf.CircleShape.t) (cs : list Coin.t) (count : Z)
  : list Coin.t * Z :=
  match cs with
  | [] => ([], count)
  | c :: rest =>
      if Coin.isCollected p c
      then removeCollected p rest (int_incr count)
      else let (kept, n) := removeCollected p rest count in (c :: kept, n)
  end.

Definition collectCoins (w : World) : World :=
  let (kept, n) := removeCollected (player w) (coins w) (coinCount w) in
  with_coins kept (with_coinCount n w).

(** ["Coins: " << coinCount], and the text pinned to the view's corner. *)
Definition updateCoinText (w : World) : World :=
  let viewCenter := sf.getCenter (view w) in
  let viewSize := sf.getSize (view w) in
  with_coinText
    (sf.MakeText
       ("Coins: " ++ NilZero.string_of_int (Z.to_int (coinCount w)))
       (sf.Vec (sf.x viewCenter - sf.x viewSize / 2 + 10)
               (sf.y viewCenter - sf.y viewSize / 2 + 10)))
    w.

(** The test of the goal. *)
Definition reachesGoal (w : World) : bool :=
  sf.intersects (sf.CircleShape.getGlobalBounds (player w))
                (sf.RectangleShape.getGlobalBounds (Platform.shape (goal w)))
  && match coins w with [] => true | _ :: _ => false end.

Definition goalCheck (w : World) : World :=
  if reachesGoal w
  then
    let w := with_levelCompleted true w in
    with_victorySprite
      (sf.Vec (sf.x (sf.getCenter (view w)) - 200) (sf.y (sf.getCenter (view w)) - 150)) w
  else w.

Definition updateCamera (w : World) : World :=
  if negb (levelCompleted w)
  then with_view
         (sf.setCenter (sf.x (sf.CircleShape.getPosition (player w)) + 200) 300 (view w)) w
  else w.

(** The frame from the keyboard to the walls: what the obstacle loop sees. *)
Definition beforeObstacleScan (inp : Input) (w : World) : World :=
  let w := steer inp w in
  let w := jump inp w in
  let w := applyGravity w in
  let w := movePlayer w in
  let w := platformCollisions w in
  let w := floorCollision w in
  wallCollisions w.

(** The frame up to the coin counter's text: what the goal test sees. *)
Definition beforeGoalCheck (inp : Input) (w : World) : World :=
  let w := beforeObstacleScan inp w in
  let w := obstacleScan w in
  let w := collectCoins w in
  updateCoinText w.

(** The body of [if (!levelCompleted)]. *)
Definition simulate (inp : Input) (w : World) : World :=
  updateCamera (goalCheck (beforeGoalCheck inp w)).

(** One turn of [while (window.isOpen())]; drawing changes nothing. *)
Definition frame (inp : Input) (w : World) : World :=
  let w := pollEvents (events inp) w in
  if negb (levelCompleted w) then simulate inp w else w.

(** ** The level of [main] and the states the game can reach *)

Definition initial : World :=
  MakeWorld
    true
    (sf.MakeView (sf.Vec 400 300) (sf.Vec 800 600))
    (sf.CircleShape.Make 20 (sf.Vec 400 300))
    (sf.Vec 0 0)
    false
    false
    [ Platform.new 200 20 100 550;
      Platform.new 150 20 350 500;
      Platform.new 200 20 600 400;
      Platform.new 150 20 900 350;
      Platform.new 250 20 1250 300;
      Platform.new 200 20 1700 450;
      Platform.new 200 20 2100 380;
      Platform.new 150 20 2600 550;
      Platform.new 200 20 3100 400;
      Platform.new 150 20 3700 350;
      Platform.new 200 20 4200 300 ]
    (Platform.new 100 20 4700 250)
    (Platform.new 9000 20 0 580)
    [ Wall.new 20 180 600 420;
      Wall.new 20 200 1600 450;
      Wall.new 20 200 3100 400;
      Wall.new 20 200 3700 350 ]
    [ Obstacle.new 50 50 800 530 700 1100;
      Obstacle.new 50 50 1500 530 1400 1800;
      Obstacle.new 50 50 2300 530 2200 2500;
      Obstacle.new 50 50 3200 530 3100 3400;
      Obstacle.new 50 50 4000 530 3900 4200 ]
    [ sf.Vec 500 500; sf.Vec 1200 400; sf.Vec 2000 450 ]
    [ Coin.new 10 500 500; Coin.new 10 1200 400; Coin.new 10 2000 450 ]
    0%Z
    (sf.MakeText EmptyString (sf.Vec 700 10))
    (sf.Vec 400 200).

(** The worlds the loop goes through: it starts at [initial] and takes a
    frame as long as the window is open. *)
Inductive reachable : World -> Prop :=
| reachable_initial : reachable initial
| reachable_frame (inp : Input) (w : World) :
    reachable w -> window_open w = true -> reachable (frame inp w).

(** ** Which frames call [resetGame]

    The two call sites are guarded by [restartRequested] and [hitsPlayer];
    these functions follow the two loops and tell whether a guard held. *)

Fixpoint pollEventsResets (evs : list sf.Event) (w : World) : bool :=
  match evs with
  | [] => false
  | e :: rest => restartRequested e w || pollEventsResets rest (handleEvent e w)
  end.

Fixpoint scanHits (todo : list Obstacle.t) (w : World) : bool :=
  match todo with
  | [] => false
  | o :: rest =>
      let (o', w1) := obstacleTurn o w in
      hitsPlayer o' w || scanHits rest w1
  end.

Definition frameResets (inp : Input) (w : World) : bool :=
  pollEventsResets (events inp) w
  || (let w1 := pollEvents (events inp) w in
      negb (levelCompleted w1)
      && (let w2 := beforeObstacleScan inp w1 in scanHits (obstacles w2) w2)).

(** ** Vocabulary of the properties *)

(** The value an [int] variable can hold. *)
Definition int_range (z : Z) : Prop := (- 2 ^ 31 <= z <= INT_MAX)%Z.

(** The coins a player standing as [p] picks up, and those left. *)
Definition collected (p : sf.CircleShape.t) (cs : list Coin.t) : list Coin.t :=
  filter (Coin.isCollected p) cs.

Definition remaining (p : sf.CircleShape.t) (cs : list Coin.t) : list Coin.t :=
  filter (fun c => negb (Coin.isCollected p c)) cs.

(** The coins [resetGame] lays out. *)
Definition freshCoins (ps : list sf.Vector2f) : list Coin.t :=
  map (fun pos => Coin.new 10 (sf.x pos) (sf.y pos)) ps.

(** The horizontal extent of an obstacle, as [Obstacle::move] reads it. *)
Definition leftEdge (o : Obstacle.t) : float :=
  sf.x (sf.RectangleShape.getPosition (Obstacle.shape o)).

Definition rightEdge (o : Obstacle.t) : float :=
  sf.x (sf.RectangleShape.getPosition (Obstacle.shape o))
  + sf.x (sf.RectangleShape.getSize (Obstacle.shape o)).

(** The obstacle after [shape.move(velocityX, 0)], before the test. *)
Definition advanced (o : Obstacle.t) : Obstacle.t :=
  Obstacle.Make (sf.RectangleShape.move (Obstacle.velocityX o) 0 (Obstacle.shape o))
                (Obstacle.velocityX o) (Obstacle.leftLimit o) (Obstacle.rightLimit o).

(** How many of the walls an obstacle overlaps. *)
Definition wallHits (ws : list Wall.t) (o : Obstacle.t) : nat :=
  List.length (filter (fun wall => Obstacle.touches wall o) ws).

(** [n] sign changes. *)
Definition negated (n : nat) (v : float) : float := Nat.iter n Qopp v.

(** An obstacle within its limits. *)
Definition inBounds (o : Obstacle.t) : Prop :=
  Obstacle.leftLimit o <= leftEdge o /\ rightEdge o <= Obstacle.rightLimit o.

(** No turn among the first [n] in which the patrol test and a wall test
    both fire. *)
Definition noCompounding (ws : list Wall.t) (o : Obstacle.t) (n : nat) : Prop :=
  forall k, (k < n)%nat ->
    Obstacle.atLimit (advanced (Nat.iter k (patrol ws) o)) = true ->
    wallHits ws (advanced (Nat.iter k (patrol ws) o)) = 0%nat.

(** The player put back on the spawn point. *)
Definition spawned (p : sf.CircleShape.t) : sf.CircleShape.t :=
  sf.CircleShape.setPosition 400 300 p.


(** [w'] is [w] but for the player, the velocity and [isOnGround]: the
    three variables the keyboard, gravity, the platforms and the walls can
    write. *)
Definition movesOnlyPlayer (w w' : World) : Prop :=
  w' = with_isOnGround (isOnGround w') (with_velocity (velocity w') (with_player (player w') w)).

(** A finished level has no coin left. *)
Definition completedClean (w : World) : Prop :=
  levelCompleted w = true -> coins w = [].

(** The coins picked up and the coins left add up to the default ones, and
    the counter cannot overflow. *)
Definition coinsAccounted (w : World) : Prop :=
  defaultCoinPositions w = defaultCoinPositions initial
  /\ (0 <= coinCount w)%Z
  /\ (coinCount w + Z.of_nat (List.length (coins w))
      = Z.of_nat (List.length (defaultCoinPositions initial)))%Z.

(** What a patrol keeps true: the obstacle is within one step of its
    limits, and it is beyond a limit only while heading back. *)
Definition patrolInv (o : Obstacle.t) : Prop :=
  Obstacle.leftLimit o - Qabs (Obstacle.velocityX o) <= leftEdge o
  /\ rightEdge o <= Obstacle.rightLimit o + Qabs (Obstacle.velocityX o)
  /\ (0 < Obstacle.velocityX o -> rightEdge o <= Obstacle.rightLimit o)
  /\ (Obstacle.velocityX o < 0 -> Obstacle.leftLimit o <= leftEdge o).

(** [noCompounding], as a test that follows the obstacle turn by turn. *)
Fixpoint noCompoundingb (ws : list Wall.t) (o : Obstacle.t) (n : nat) : bool :=
  match n with
  | O => true
  | S n' =>
      implb (Obstacle.atLimit (advanced o)) (Nat.eqb (wallHits ws (advanced o)) 0)
      && noCompoundingb ws (patrol ws o) n'
  end.

(** ** The whole of [main]

    [main] loads a font and a texture, and returns -1 if either fails;
    otherwise it runs the loop until the window is closed and returns 0.
    The inputs of the successive frames are given as a list; [None] says
    that the list ended with the window still open, the program still
    running. *)
Fixpoint mainLoop (inputs : list Input) (w : World) : option World :=
  match inputs with
  | [] => if window_open w then None else Some w
  | inp :: rest => if window_open w then mainLoop rest (frame inp w) else Some w
  end.

Definition main (fontLoaded textureLoaded : bool) (inputs : list Input) : option Z :=
  if negb fontLoaded then Some (-1)%Z
  else if negb textureLoaded then Some (-1)%Z
  else match mainLoop inputs initial with
       | Some _ => Some 0%Z
       | None => None
       end.

(** The frames of a list of inputs, one after the other. *)
Definition frames (inputs : list Input) (w : World) : World :=
  fold_left (fun w inp => frame inp w) inputs w.

(** An input whose event queue holds a [Closed] event. *)
Definition closes (inp : Input) : bool := existsb isClosed (events inp).

(** The coin counter's text shows the counter. *)
Definition hudShows (w : World) : Prop :=
  sf.getString (coinText w)
  = ("Coins: " ++ NilZero.string_of_int (Z.to_int (coinCount w)))%string.

(** What no frame writes: the geometry of the level, the default places of
    the coins, the radius of the ball and the size of the view. *)
Definition sameLevel (w w' : World) : Prop :=
  platforms w' = platforms w /\ goal w' = goal w /\ floor w' = floor w
  /\ walls w' = walls w /\ defaultCoinPositions w' = defaultCoinPositions w
  /\ sf.CircleShape.getRadius (player w') = sf.CircleShape.getRadius (player w)
  /\ sf.getSize (view w') = sf.getSize (view w).

(** The victory image sits 200 left of and 150 above the centre of the
    view. *)
Definition victoryPlaced (w : World) : Prop :=
  victorySprite w
  = sf.Vec (sf.x (sf.getCenter (view w)) - 200) (sf.y (sf.getCenter (view w)) - 150).

(** ** Sample worlds and inputs *)

Definition noKeys : sf.Key -> bool := fun _ => false.

(** The level of [main], won: no coin left, three counted. *)
Definition wonWorld : World :=
  with_levelCompleted true (with_coinCount 3%Z (with_coins [] initial)).

(** A press of the key A. *)
Definition pressA : sf.Event := sf.MakeEvent sf.KeyPressed sf.KeyA.

(** A press of the key R. *)
Definition pressR : sf.Event := sf.MakeEvent sf.KeyPressed sf.KeyR.

(** The ball coming down on the top of the second wall of [main] while it
    moves to the right, its left edge already past the wall's. *)
Definition secondWall : Wall.t := Wall.new 20 200 1600 450.

Definition overWall : World :=
  with_velocity (sf.Vec 5 1)
    (with_player (sf.CircleShape.Make 20 (sf.Vec 1605 415)) initial).

(** The ball running into the same wall from the left. *)
Definition againstWall : World :=
  with_velocity (sf.Vec 5 1)
    (with_player (sf.CircleShape.Make 20 (sf.Vec 1565 500)) initial).


Definition abovePlatform : World :=
  with_velocity (sf.Vec 0 4)
    (with_player (sf.CircleShape.Make 20 (sf.Vec 400 470)) initial).




(** No event, no key held. *)
Definition idle : Input := MakeInput [] noKeys.

(** The ball over the goal, all coins taken. *)
Definition atGoal : World :=
  with_coinCount 3%Z
    (with_coins [] (with_player (sf.CircleShape.Make 20 (sf.Vec 4720 215)) initial)).

(** The ball next to the first obstacle of [main]. *)
Definition besideObstacle : World :=
  with_player (sf.CircleShape.Make 20 (sf.Vec 810 520)) initial.

(** The ball on the first coin of [main]. *)
Definition onCoin : World :=
  with_player (sf.CircleShape.Make 20 (sf.Vec 495 490)) initial.

(** The close button is clicked. *)
Definition closing : Input :=
  MakeInput [sf.MakeEvent sf.Closed sf.KeyUnknown] noKeys.


Definition holdUp : Input :=
  MakeInput [] (fun k => match k with sf.KeyUp => true | _ => false end).

(** The ball at rest on the floor, in the open. *)
Definition onFloor : World :=
  with_isOnGround true
    (with_player (sf.CircleShape.Make 20 (sf.Vec 320 540)) initial).

(** The ball in the air with [isOnGround] still set, as after rolling off
    a platform. *)
Definition offLedge : World := with_isOnGround true initial.

(** * Properties *)

(** ** Comparisons *)

Lemma fltb_lt (a b : float) : fltb a b = true <-> a < b.
Proof.
  unfold fltb. rewrite negb_true_iff, <- not_true_iff_false, Qle_bool_iff.
  split; [apply Qnot_le_lt | apply Qlt_not_le].
Qed.

Lemma fltb_ge (a b : float) : fltb a b = false <-> b <= a.
Proof.
  unfold fltb. rewrite negb_false_iff. apply Qle_bool_iff.
Qed.


Lemma fleb_gt (a b : float) : fleb a b = false <-> b < a.
Proof.
  unfold fleb. rewrite <- not_true_iff_false, Qle_bool_iff.
  split; [apply Qnot_le_lt | apply Qlt_not_le].
Qed.

(** ** [resetGame] *)

Lemma emplace_all (ps : list sf.Vector2f) (acc : list Coin.t) :
  fold_left (fun cs pos => cs ++ [Coin.new 10 (sf.x pos) (sf.y pos)]) ps acc
  = acc ++ freshCoins ps.
Proof.
  revert acc. induction ps as [|pos ps IH]; intros acc; simpl.
  - now rewrite app_nil_r.
  - rewrite IH, <- app_assoc. reflexivity.
Qed.

Lemma resetGame_eq (w : World) :
  resetGame w =
  MakeWorld (window_open w) (sf.setCenter 400 300 (view w)) (spawned (player w))
            (sf.Vec 0 0) false false (platforms w) (goal w) (floor w) (walls w)
            (obstacles w) (defaultCoinPositions w)
            (freshCoins (defaultCoinPositions w)) 0%Z (coinText w) (victorySprite w).
Proof.
  unfold resetGame. cbn -[fold_left]. rewrite emplace_all. reflexivity.
Qed.

Lemma resetGame_twice (w : World) : resetGame (resetGame w) = resetGame w.
Proof. rewrite !resetGame_eq. reflexivity. Qed.

Lemma resetGame_walls (w : World) : walls (resetGame w) = walls w.
Proof. rewrite resetGame_eq. reflexivity. Qed.

(** C2.  [resetGame] puts the player at (400,300), zeroes the velocity,
    clears [isOnGround] and [levelCompleted], zeroes [coinCount], centres the
    view on (400,300) and replaces the coins by one coin of radius 10 per
    default position, in the order of the list; hence calling it twice gives
    the same world as calling it once. *)
Theorem resetGame_restores_and_is_idempotent (w : World) :
  sf.CircleShape.getPosition (player (resetGame w)) = sf.Vec 400 300
  /\ velocity (resetGame w) = sf.Vec 0 0
  /\ isOnGround (resetGame w) = false
  /\ levelCompleted (resetGame w) = false
  /\ coinCount (resetGame w) = 0%Z
  /\ sf.getCenter (view (resetGame w)) = sf.Vec 400 300
  /\ coins (resetGame w)
     = map (fun pos => Coin.new 10 (sf.x pos) (sf.y pos)) (defaultCoinPositions w)
  /\ resetGame (resetGame w) = resetGame w.
Proof.
  rewrite !resetGame_eq. cbn. repeat split; reflexivity.
Qed.

(** C9.  [resetGame] leaves the obstacles (position, velocity and limits of
    each) as they are, and the platforms, the floor, the walls and the goal
    too: an obstacle keeps the place and the direction it had in its patrol. *)
Theorem resetGame_keeps_obstacles_and_geometry (w : World) :
  obstacles (resetGame w) = obstacles w
  /\ platforms (resetGame w) = platforms w
  /\ floor (resetGame w) = floor w
  /\ walls (resetGame w) = walls w
  /\ goal (resetGame w) = goal w.
Proof.
  rewrite resetGame_eq. cbn. repeat split; reflexivity.
Qed.

(** ** Landing on a platform *)

Lemma floorCollision_eq (w : World) : floorCollision w = platformCollision (floor w) w.
Proof. reflexivity. Qed.

Lemma platformCollision_not_falling (P : Platform.t) (w : World) :
  sf.y (velocity w) <= 0 -> platformCollision P w = w.
Proof.
  intros H. unfold platformCollision.
  destruct (sf.intersects _ _); [|reflexivity].
  apply fltb_ge in H. unfold fgtb. now rewrite H.
Qed.



Lemma platformCollision_platforms (P : Platform.t) (w : World) :
  platforms (platformCollision P w) = platforms w
  /\ floor (platformCollision P w) = floor w.
Proof.
  unfold platformCollision.
  destruct (sf.intersects _ _); [|now split].
  destruct (fgtb _ _); now split.
Qed.

Lemma platforms_pass_not_falling (ps : list Platform.t) (w : World) :
  sf.y (velocity w) <= 0 ->
  fold_left (fun w p => platformCollision p w) ps w = w.
Proof.
  revert w. induction ps as [|p ps IH]; intros w H; simpl; [reflexivity|].
  rewrite platformCollision_not_falling by exact H. now apply IH.
Qed.


Lemma platforms_pass_floor (ps : list Platform.t) (w : World) :
  floor (fold_left (fun w p => platformCollision p w) ps w) = floor w.
Proof.
  revert w. induction ps as [|p ps IH]; intros w; simpl; [reflexivity|].
  rewrite IH. apply platformCollision_platforms.
Qed.


(** ** What each part of the frame can write *)

Lemma movesOnlyPlayer_refl (w : World) : movesOnlyPlayer w w.
Proof. unfold movesOnlyPlayer. now destruct w. Qed.

Lemma movesOnlyPlayer_trans (w1 w2 w3 : World) :
  movesOnlyPlayer w1 w2 -> movesOnlyPlayer w2 w3 -> movesOnlyPlayer w1 w3.
Proof.
  unfold movesOnlyPlayer. intros H12 H23. rewrite H23 at 1. rewrite H12 at 1.
  reflexivity.
Qed.

Ltac player_only :=
  match goal with
  | |- movesOnlyPlayer ?w _ =>
      repeat match goal with |- context [if ?b then _ else _] => destruct b end;
      solve [apply movesOnlyPlayer_refl | unfold movesOnlyPlayer; now destruct w]
  end.

Lemma steer_player_only (inp : Input) (w : World) : movesOnlyPlayer w (steer inp w).
Proof. unfold steer. player_only. Qed.

Lemma jump_player_only (inp : Input) (w : World) : movesOnlyPlayer w (jump inp w).
Proof. unfold jump. player_only. Qed.

Lemma applyGravity_player_only (w : World) : movesOnlyPlayer w (applyGravity w).
Proof. unfold applyGravity. player_only. Qed.

Lemma movePlayer_player_only (w : World) : movesOnlyPlayer w (movePlayer w).
Proof. unfold movePlayer. player_only. Qed.

Lemma platformCollision_player_only (P : Platform.t) (w : World) :
  movesOnlyPlayer w (platformCollision P w).
Proof. unfold platformCollision. player_only. Qed.

Lemma wallCollision_player_only (wall : Wall.t) (w : World) :
  movesOnlyPlayer w (wallCollision wall w).
Proof. unfold wallCollision. player_only. Qed.

Lemma pass_player_only {A : Type} (f : A -> World -> World) (l : list A) :
  (forall a w, movesOnlyPlayer w (f a w)) ->
  forall w, movesOnlyPlayer w (fold_left (fun w a => f a w) l w).
Proof.
  intros Hf. induction l as [|a l IH]; intros w; simpl.
  - apply movesOnlyPlayer_refl.
  - eapply movesOnlyPlayer_trans; [apply Hf | apply IH].
Qed.

Lemma beforeObstacleScan_player_only (inp : Input) (w : World) :
  movesOnlyPlayer w (beforeObstacleScan inp w).
Proof.
  unfold beforeObstacleScan, wallCollisions, platformCollisions.
  repeat (eapply movesOnlyPlayer_trans;
          [| first [ apply (pass_player_only wallCollision), wallCollision_player_only
                   | rewrite floorCollision_eq; apply platformCollision_player_only
                   | apply (pass_player_only platformCollision), platformCollision_player_only
                   | apply movePlayer_player_only
                   | apply applyGravity_player_only
                   | apply jump_player_only ] ]).
  apply steer_player_only.
Qed.

(** ** The obstacle loop *)

Lemma obstacleLoop_eq (todo : list Obstacle.t) (w : World) :
  obstacleLoop todo w
  = (map (patrol (walls w)) todo, if scanHits todo w then resetGame w else w).
Proof.
  revert w. induction todo as [|o rest IH]; intros w; simpl; [reflexivity|].
  rewrite IH. destruct (hitsPlayer (patrol (walls w) o) w); simpl.
  - rewrite ?resetGame_walls, resetGame_twice.
    now destruct (scanHits rest (resetGame w)).
  - reflexivity.
Qed.

Lemma obstacleScan_eq (w : World) :
  obstacleScan w
  = with_obstacles (map (patrol (walls w)) (obstacles w))
                   (if scanHits (obstacles w) w then resetGame w else w).
Proof. unfold obstacleScan. now rewrite obstacleLoop_eq. Qed.

Lemma scanHits_app (l1 l2 : list Obstacle.t) (w : World) :
  scanHits (l1 ++ l2) w = scanHits l1 w || scanHits l2 (snd (obstacleLoop l1 w)).
Proof.
  revert w. induction l1 as [|o l1 IH]; intros w; simpl; [reflexivity|].
  rewrite IH, orb_assoc.
  destruct (obstacleLoop l1 _) as [l1' w2]. reflexivity.
Qed.

Lemma obstacleLoop_walls (l : list Obstacle.t) (w : World) :
  walls (snd (obstacleLoop l w)) = walls w.
Proof.
  rewrite obstacleLoop_eq. simpl.
  destruct (scanHits l w); [apply resetGame_walls | reflexivity].
Qed.

(** A guard that holds at the turn of some obstacle is a hit of the scan. *)
Lemma scanHits_at (w : World) (seen todo : list Obstacle.t) (o : Obstacle.t) :
  hitsPlayer (patrol (walls w) o) (snd (obstacleLoop seen w)) = true ->
  scanHits (seen ++ o :: todo) w = true.
Proof.
  intros H. rewrite scanHits_app. simpl.
  rewrite obstacleLoop_walls, H. apply orb_true_r.
Qed.

(** ** The coin scan *)

Lemma int_wrap_small (z : Z) : int_range z -> int_wrap z = z.
Proof.
  unfold int_range, int_wrap, INT_MAX. intros H.
  rewrite Z.mod_small; lia.
Qed.

Lemma int_incr_iter (k : nat) (n : Z) :
  int_range n -> (n + Z.of_nat k <= INT_MAX)%Z ->
  Nat.iter k int_incr n = (n + Z.of_nat k)%Z.
Proof.
  intros Hn. induction k as [|k IH]; intros Hk; simpl Nat.iter.
  - lia.
  - rewrite IH by lia. unfold int_incr. rewrite int_wrap_small.
    + lia.
    + unfold int_range in *. lia.
Qed.

Lemma removeCollected_eq (p : sf.CircleShape.t) (cs : list Coin.t) (n : Z) :
  removeCollected p cs n
  = (remaining p cs, Nat.iter (List.length (collected p cs)) int_incr n).
Proof.
  revert n. induction cs as [|c cs IH]; intros n; simpl; [reflexivity|].
  unfold remaining, collected in *. simpl.
  destruct (Coin.isCollected p c); simpl.
  - rewrite IH. now rewrite <- Nat.iter_succ_r.
  - now rewrite IH.
Qed.

Lemma collectCoins_eq (w : World) :
  collectCoins w
  = with_coins (remaining (player w) (coins w))
      (with_coinCount
         (Nat.iter (List.length (collected (player w) (coins w))) int_incr (coinCount w)) w).
Proof. unfold collectCoins. now rewrite removeCollected_eq. Qed.

Lemma collected_remaining_length (p : sf.CircleShape.t) (cs : list Coin.t) :
  (List.length (collected p cs) + List.length (remaining p cs) = List.length cs)%nat.
Proof.
  unfold collected, remaining. induction cs as [|c cs IH]; simpl; [reflexivity|].
  destruct (Coin.isCollected p c); simpl; lia.
Qed.

(** ** The event loop *)

Lemma restartRequested_window (e : sf.Event) (b : bool) (w : World) :
  restartRequested e (with_window_open b w) = restartRequested e w.
Proof. reflexivity. Qed.

Lemma handleEvent_quiet (e : sf.Event) (w : World) :
  restartRequested e w = false ->
  handleEvent e w = with_window_open (window_open (handleEvent e w)) w.
Proof.
  unfold handleEvent. intros H.
  destruct (isClosed e); rewrite ?restartRequested_window, H; now destruct w.
Qed.

Lemma pollEventsResets_window (evs : list sf.Event) (b : bool) (w : World) :
  pollEventsResets evs (with_window_open b w) = pollEventsResets evs w.
Proof.
  revert b w. induction evs as [|e evs IH]; intros b w; simpl; [reflexivity|].
  rewrite restartRequested_window. destruct (restartRequested e w) eqn:H.
  - reflexivity.
  - simpl. rewrite (handleEvent_quiet e w H).
    assert (H' : restartRequested e (with_window_open b w) = false) by exact H.
    rewrite (handleEvent_quiet e _ H'). rewrite !IH. reflexivity.
Qed.

(** Without a restart, the event loop can only close the window. *)
Lemma pollEvents_quiet (evs : list sf.Event) (w : World) :
  pollEventsResets evs w = false ->
  pollEvents evs w = with_window_open (window_open (pollEvents evs w)) w.
Proof.
  unfold pollEvents. revert w. induction evs as [|e evs IH]; intros w H; simpl in *.
  - now destruct w.
  - apply orb_false_iff in H. destruct H as [He Hr].
    rewrite (handleEvent_quiet e w He) in Hr |- *.
    rewrite pollEventsResets_window in Hr.
    set (b := window_open (handleEvent e w)) in *.
    assert (Hb : pollEventsResets evs (with_window_open b w) = false)
      by now rewrite pollEventsResets_window.
    rewrite (IH _ Hb). reflexivity.
Qed.

(** ** The end of the frame *)

Lemma reachesGoal_iff (w : World) :
  reachesGoal w = true
  <-> sf.intersects (sf.CircleShape.getGlobalBounds (player w))
                    (sf.RectangleShape.getGlobalBounds (Platform.shape (goal w))) = true
      /\ coins w = [].
Proof.
  unfold reachesGoal. rewrite andb_true_iff.
  destruct (coins w); intuition congruence.
Qed.

Lemma goalCheck_eq (w : World) :
  goalCheck w
  = if reachesGoal w
    then with_victorySprite
           (sf.Vec (sf.x (sf.getCenter (view w)) - 200) (sf.y (sf.getCenter (view w)) - 150))
           (with_levelCompleted true w)
    else w.
Proof. reflexivity. Qed.

Lemma closing_fields (c : World) :
  let e := updateCamera (goalCheck (updateCoinText c)) in
  coins e = coins c /\ coinCount e = coinCount c /\ player e = player c
  /\ velocity e = velocity c /\ isOnGround e = isOnGround c
  /\ obstacles e = obstacles c
  /\ defaultCoinPositions e = defaultCoinPositions c
  /\ window_open e = window_open c
  /\ levelCompleted e = levelCompleted c || reachesGoal c.
Proof.
  unfold updateCamera, goalCheck.
  change (reachesGoal (updateCoinText c)) with (reachesGoal c).
  destruct (reachesGoal c), (levelCompleted c) eqn:E; cbn; rewrite ?E; cbn;
    repeat split; try reflexivity; exact E.
Qed.

Lemma movesOnlyPlayer_fields (w w' : World) :
  movesOnlyPlayer w w' ->
  levelCompleted w' = levelCompleted w /\ coins w' = coins w
  /\ coinCount w' = coinCount w /\ obstacles w' = obstacles w
  /\ walls w' = walls w /\ defaultCoinPositions w' = defaultCoinPositions w
  /\ view w' = view w /\ window_open w' = window_open w /\ goal w' = goal w.
Proof.
  unfold movesOnlyPlayer. intros H. rewrite H. cbn. repeat split; reflexivity.
Qed.

Lemma updateCoinText_fields (c : World) :
  levelCompleted (updateCoinText c) = levelCompleted c
  /\ coins (updateCoinText c) = coins c
  /\ player (updateCoinText c) = player c
  /\ goal (updateCoinText c) = goal c
  /\ reachesGoal (updateCoinText c) = reachesGoal c.
Proof. repeat split; reflexivity. Qed.

Lemma collectCoins_fields (w : World) :
  levelCompleted (collectCoins w) = levelCompleted w
  /\ player (collectCoins w) = player w
  /\ goal (collectCoins w) = goal w
  /\ obstacles (collectCoins w) = obstacles w
  /\ view (collectCoins w) = view w
  /\ velocity (collectCoins w) = velocity w
  /\ isOnGround (collectCoins w) = isOnGround w
  /\ defaultCoinPositions (collectCoins w) = defaultCoinPositions w.
Proof.
  unfold collectCoins. destruct (removeCollected _ _ _). repeat split; reflexivity.
Qed.

Lemma obstacleScan_levelCompleted (w : World) :
  levelCompleted w = false -> levelCompleted (obstacleScan w) = false.
Proof.
  intros H. rewrite obstacleScan_eq.
  generalize (map (patrol (walls w)) (obstacles w)). intros os.
  destruct (scanHits _ _).
  - rewrite resetGame_eq. reflexivity.
  - exact H.
Qed.

(** The flag at the goal test is the flag at the gate, unless a reset
    cleared it in between. *)
Lemma beforeGoalCheck_levelCompleted (inp : Input) (w : World) :
  levelCompleted w = false -> levelCompleted (beforeGoalCheck inp w) = false.
Proof.
  intros H. unfold beforeGoalCheck.
  rewrite (proj1 (updateCoinText_fields _)), (proj1 (collectCoins_fields _)).
  apply obstacleScan_levelCompleted.
  destruct (movesOnlyPlayer_fields _ _ (beforeObstacleScan_player_only inp w)) as [E _].
  congruence.
Qed.

Lemma simulate_levelCompleted (inp : Input) (w : World) :
  levelCompleted w = false ->
  levelCompleted (simulate inp w) = reachesGoal (beforeGoalCheck inp w).
Proof.
  intros H. unfold simulate.
  pose proof (beforeGoalCheck_levelCompleted inp w H) as Hc.
  unfold beforeGoalCheck in *.
  generalize dependent (collectCoins (obstacleScan (beforeObstacleScan inp w))).
  intros c Hc.
  destruct (closing_fields c) as (_ & _ & _ & _ & _ & _ & _ & _ & E).
  rewrite E. destruct (updateCoinText_fields c) as (E1 & _ & _ & _ & E2).
  rewrite E2. rewrite E1 in Hc. now rewrite Hc.
Qed.

Lemma simulate_coins (inp : Input) (w : World) :
  coins (simulate inp w) = coins (beforeGoalCheck inp w).
Proof.
  unfold simulate, beforeGoalCheck.
  generalize (collectCoins (obstacleScan (beforeObstacleScan inp w))). intros c.
  destruct (closing_fields c) as (E & _).
  now rewrite (proj1 (proj2 (updateCoinText_fields c))).
Qed.

Lemma handleEvent_completedClean (e : sf.Event) (w : World) :
  completedClean w -> completedClean (handleEvent e w).
Proof.
  unfold completedClean, handleEvent. intros H.
  destruct (isClosed e); rewrite ?restartRequested_window;
    (destruct (restartRequested e w); [rewrite resetGame_eq; cbn; congruence | exact H]).
Qed.

Lemma pollEvents_completedClean (evs : list sf.Event) (w : World) :
  completedClean w -> completedClean (pollEvents evs w).
Proof.
  unfold pollEvents. revert w. induction evs as [|e evs IH]; intros w H; simpl.
  - exact H.
  - apply IH, handleEvent_completedClean, H.
Qed.

Lemma frame_completedClean (inp : Input) (w : World) :
  completedClean w -> completedClean (frame inp w).
Proof.
  intros H. unfold frame.
  pose proof (pollEvents_completedClean (events inp) w H) as H1.
  destruct (levelCompleted (pollEvents (events inp) w)) eqn:E; cbn [negb].
  - exact H1.
  - unfold completedClean. rewrite (simulate_levelCompleted _ _ E), simulate_coins.
    intros Hg. exact (proj2 (proj1 (reachesGoal_iff _) Hg)).
Qed.

Lemma reachable_completedClean (w : World) : reachable w -> completedClean w.
Proof.
  induction 1 as [|inp w _ IH _].
  - unfold completedClean. cbn. congruence.
  - now apply frame_completedClean.
Qed.

(** C3.  In a frame that passes the gate [if (!levelCompleted)],
    [levelCompleted] is true at the end exactly when, at the goal test, the
    player's bounding box meets the goal's and no coin is left; and no world
    the game reaches from its initial one has [levelCompleted] true with a
    coin left. *)
Theorem completion_needs_goal_and_no_coin :
  (forall (inp : Input) (w : World),
      levelCompleted (pollEvents (events inp) w) = false ->
      let c := beforeGoalCheck inp (pollEvents (events inp) w) in
      levelCompleted (frame inp w) = true
      <-> (sf.intersects (sf.CircleShape.getGlobalBounds (player c))
                         (sf.RectangleShape.getGlobalBounds (Platform.shape (goal c))) = true
           /\ coins c = []))
  /\ (forall w : World,
        reachable w -> ~ (levelCompleted w = true /\ coins w <> [])).
Proof.
  split.
  - intros inp w H c. subst c. unfold frame. rewrite H. cbn [negb].
    rewrite (simulate_levelCompleted _ _ H). apply reachesGoal_iff.
  - intros w Hr [Hc Hn]. apply Hn, (reachable_completedClean w Hr), Hc.
Qed.

(** ** Contact with an obstacle *)

Lemma frame_open_gate (inp : Input) (w : World) :
  levelCompleted (pollEvents (events inp) w) = false ->
  frame inp w
  = updateCamera (goalCheck (updateCoinText (collectCoins (obstacleScan
      (beforeObstacleScan inp (pollEvents (events inp) w)))))).
Proof. intros H. unfold frame. rewrite H. reflexivity. Qed.

Lemma frame_closed_gate (inp : Input) (w : World) :
  levelCompleted (pollEvents (events inp) w) = true ->
  frame inp w = pollEvents (events inp) w.
Proof. intros H. unfold frame. rewrite H. reflexivity. Qed.

(** C5.  If, at the turn of some obstacle of the scan, the player's bounding
    box meets the obstacle's, then that turn calls [resetGame], the scan ends
    in the world [resetGame] makes of the one it started from (the obstacles
    apart, which have all moved), and the frame is one that resets. *)
Theorem obstacle_contact_resets
        (w : World) (seen todo : list Obstacle.t) (o : Obstacle.t) :
  obstacles w = seen ++ o :: todo ->
  hitsPlayer (patrol (walls w) o) (snd (obstacleLoop seen w)) = true ->
  snd (obstacleTurn o (snd (obstacleLoop seen w))) = resetGame (snd (obstacleLoop seen w))
  /\ obstacleScan w
     = with_obstacles (map (patrol (walls w)) (obstacles w)) (resetGame w)
  /\ (forall (inp : Input) (w0 : World),
         levelCompleted (pollEvents (events inp) w0) = false ->
         w = beforeObstacleScan inp (pollEvents (events inp) w0) ->
         frameResets inp w0 = true).
Proof.
  intros Ho Hit.
  pose proof (scanHits_at w seen todo o Hit) as Hs. rewrite <- Ho in Hs.
  repeat split.
  - unfold obstacleTurn. cbn [snd]. now rewrite obstacleLoop_walls, Hit.
  - now rewrite obstacleScan_eq, Hs.
  - intros inp w0 Hg Hw. unfold frameResets. rewrite Hg, <- Hw, Hs.
    apply orb_true_r.
Qed.

Lemma obstacleLoop_after_hit
      (w : World) (seen todo : list Obstacle.t) (o : Obstacle.t) :
  hitsPlayer (patrol (walls w) o) (snd (obstacleLoop seen w)) = true ->
  obstacleLoop (seen ++ o :: todo) w
  = (fst (obstacleLoop seen w) ++ patrol (walls w) o
       :: fst (obstacleLoop todo (resetGame (snd (obstacleLoop seen w)))),
     snd (obstacleLoop todo (resetGame (snd (obstacleLoop seen w))))).
Proof.
  intros Hit. pose proof (scanHits_at w seen todo o Hit) as Hs.
  rewrite obstacleLoop_eq, Hs, map_app.
  assert (E : resetGame (snd (obstacleLoop seen w)) = resetGame w).
  { rewrite obstacleLoop_eq. cbn [snd].
    destruct (scanHits seen w); [apply resetGame_twice | reflexivity]. }
  rewrite E. rewrite !obstacleLoop_eq. cbn [fst snd map].
  rewrite resetGame_walls, resetGame_twice.
  now destruct (scanHits todo (resetGame w)).
Qed.

Lemma closing_view (c : World) :
  let e := updateCamera (goalCheck (updateCoinText c)) in
  view e
  = if levelCompleted e then view c
    else sf.setCenter (sf.x (sf.CircleShape.getPosition (player c)) + 200) 300 (view c).
Proof.
  unfold updateCamera, goalCheck.
  change (reachesGoal (updateCoinText c)) with (reachesGoal c).
  destruct (reachesGoal c), (levelCompleted c) eqn:E; cbn; rewrite ?E; cbn;
    rewrite ?E; reflexivity.
Qed.

(** C10.  A contact with an obstacle does not end the frame.  The loop goes
    on from the reset world with the obstacles not yet visited, so that every
    obstacle has moved at the end of the frame; and the coin scan, the goal
    test and the camera work on the reset world: the player stands on the
    spawn point, the coins are the fresh ones minus those the spawn point
    touches, counted from zero, the level is completed if the spawn point
    touches the goal with no coin left, and the camera looks 200 ahead of the
    spawn point unless the level is completed. *)
Theorem reset_does_not_abort_frame
        (inp : Input) (w : World) (seen todo : list Obstacle.t) (o : Obstacle.t) :
  let w2 := beforeObstacleScan inp (pollEvents (events inp) w) in
  let p := spawned (player w2) in
  let cs := freshCoins (defaultCoinPositions w2) in
  levelCompleted (pollEvents (events inp) w) = false ->
  obstacles w2 = seen ++ o :: todo ->
  hitsPlayer (patrol (walls w2) o) (snd (obstacleLoop seen w2)) = true ->
  obstacleLoop (obstacles w2) w2
  = (fst (obstacleLoop seen w2) ++ patrol (walls w2) o
       :: fst (obstacleLoop todo (resetGame (snd (obstacleLoop seen w2)))),
     snd (obstacleLoop todo (resetGame (snd (obstacleLoop seen w2)))))
  /\ obstacles (frame inp w) = map (patrol (walls w2)) (obstacles w2)
  /\ player (frame inp w) = p
  /\ coins (frame inp w) = remaining p cs
  /\ coinCount (frame inp w) = Nat.iter (List.length (collected p cs)) int_incr 0%Z
  /\ levelCompleted (frame inp w)
     = sf.intersects (sf.CircleShape.getGlobalBounds p)
                     (sf.RectangleShape.getGlobalBounds (Platform.shape (goal w2)))
       && match remaining p cs with [] => true | _ :: _ => false end
  /\ sf.getCenter (view (frame inp w))
     = if levelCompleted (frame inp w) then sf.Vec 400 300 else sf.Vec (400 + 200) 300.
Proof.
  intros w2 p cs Hg Ho Hit.
  rewrite (frame_open_gate inp w Hg). fold w2.
  pose proof (scanHits_at w2 seen todo o Hit) as Hs. rewrite <- Ho in Hs.
  split; [rewrite Ho at 1; now apply obstacleLoop_after_hit|].
  rewrite obstacleScan_eq, Hs, collectCoins_eq.
  subst p cs. clearbody w2. clear Ho Hit Hs Hg.
  generalize (map (patrol (walls w2)) (obstacles w2)). intros os.
  rewrite resetGame_eq.
  cbn [player coins coinCount with_obstacles with_coins with_coinCount].
  set (p := spawned (player w2)). set (cs := freshCoins (defaultCoinPositions w2)).
  set (c := with_coins _ _).
  destruct (closing_fields c) as (E1 & E2 & E3 & _ & _ & E6 & _ & _ & E9).
  pose proof (closing_view c) as E10. cbv zeta in E10.
  rewrite E1, E2, E3, E6, E10, E9.
  clear E1 E2 E3 E6 E9 E10. subst c. cbn. repeat split.
  now destruct (reachesGoal _).
Qed.

(** ** Counting coins *)

Lemma coinsAccounted_ext (w w' : World) :
  defaultCoinPositions w' = defaultCoinPositions w ->
  coinCount w' = coinCount w ->
  coins w' = coins w ->
  coinsAccounted w -> coinsAccounted w'.
Proof. unfold coinsAccounted. intros -> -> ->. trivial. Qed.

Lemma coinsAccounted_resetGame (w : World) :
  defaultCoinPositions w = defaultCoinPositions initial ->
  coinsAccounted (resetGame w).
Proof.
  intros H. rewrite resetGame_eq. unfold coinsAccounted.
  cbn [defaultCoinPositions coinCount coins]. rewrite H.
  unfold freshCoins. rewrite length_map. repeat split; lia.
Qed.

Lemma coinsAccounted_range (w : World) :
  coinsAccounted w ->
  int_range (coinCount w)
  /\ (coinCount w + Z.of_nat (List.length (coins w)) <= INT_MAX)%Z.
Proof.
  unfold coinsAccounted, int_range, INT_MAX. intros (_ & H0 & H1).
  change (Z.of_nat (List.length (defaultCoinPositions initial))) with 3%Z in H1.
  lia.
Qed.

Lemma collectCoins_count (w : World) :
  int_range (coinCount w) ->
  (coinCount w + Z.of_nat (List.length (coins w)) <= INT_MAX)%Z ->
  coinCount (collectCoins w)
  = (coinCount w + Z.of_nat (List.length (collected (player w) (coins w))))%Z.
Proof.
  intros Hr Hm. rewrite collectCoins_eq. cbn [coinCount with_coins with_coinCount].
  apply int_incr_iter; [exact Hr|].
  pose proof (collected_remaining_length (player w) (coins w)). lia.
Qed.

Lemma collectCoins_coins (w : World) :
  coins (collectCoins w) = remaining (player w) (coins w).
Proof. rewrite collectCoins_eq. reflexivity. Qed.

Lemma coinsAccounted_collectCoins (w : World) :
  coinsAccounted w -> coinsAccounted (collectCoins w).
Proof.
  intros H. destruct (coinsAccounted_range w H) as [Hr Hm].
  destruct H as (Hd & H0 & H1). unfold coinsAccounted.
  rewrite collectCoins_count, collectCoins_coins by assumption.
  rewrite (proj2 (proj2 (proj2 (proj2 (proj2 (proj2 (proj2 (collectCoins_fields w)))))))).
  pose proof (collected_remaining_length (player w) (coins w)).
  repeat split; [exact Hd | lia | lia].
Qed.

Lemma coinsAccounted_handleEvent (e : sf.Event) (w : World) :
  coinsAccounted w -> coinsAccounted (handleEvent e w).
Proof.
  intros H. unfold handleEvent.
  destruct (isClosed e); rewrite ?restartRequested_window;
    (destruct (restartRequested e w);
     [apply coinsAccounted_resetGame; apply H | exact H]).
Qed.

Lemma coinsAccounted_pollEvents (evs : list sf.Event) (w : World) :
  coinsAccounted w -> coinsAccounted (pollEvents evs w).
Proof.
  unfold pollEvents. revert w. induction evs as [|e evs IH]; intros w H.
  - exact H.
  - cbn [fold_left]. apply IH, coinsAccounted_handleEvent, H.
Qed.

Lemma coinsAccounted_obstacleScan (w : World) :
  coinsAccounted w -> coinsAccounted (obstacleScan w).
Proof.
  intros H. rewrite obstacleScan_eq.
  generalize (map (patrol (walls w)) (obstacles w)). intros os.
  destruct (scanHits _ _).
  - apply (coinsAccounted_ext (resetGame w)); try reflexivity.
    apply coinsAccounted_resetGame, H.
  - exact H.
Qed.

Lemma coinsAccounted_frame (inp : Input) (w : World) :
  coinsAccounted w -> coinsAccounted (frame inp w).
Proof.
  intros H. pose proof (coinsAccounted_pollEvents (events inp) w H) as H1.
  destruct (levelCompleted (pollEvents (events inp) w)) eqn:E.
  - now rewrite frame_closed_gate.
  - rewrite frame_open_gate by exact E.
    generalize dependent (pollEvents (events inp) w). intros w1 H1 _.
    destruct (movesOnlyPlayer_fields _ _ (beforeObstacleScan_player_only inp w1))
      as (_ & Ec & En & _ & _ & Ed & _).
    pose proof (coinsAccounted_ext w1 _ Ed En Ec H1) as H2.
    apply coinsAccounted_obstacleScan, coinsAccounted_collectCoins in H2.
    revert H2. generalize (collectCoins (obstacleScan (beforeObstacleScan inp w1))).
    intros c Hc.
    destruct (closing_fields c) as (E1 & E2 & _ & _ & _ & _ & E7 & _).
    exact (coinsAccounted_ext c _ E7 E2 E1 Hc).
Qed.

Lemma reachable_coinsAccounted (w : World) : reachable w -> coinsAccounted w.
Proof.
  induction 1 as [|inp w _ IH _].
  - unfold coinsAccounted. cbn. repeat split; lia.
  - now apply coinsAccounted_frame.
Qed.

Lemma frameResets_false (inp : Input) (w : World) :
  frameResets inp w = false ->
  pollEventsResets (events inp) w = false
  /\ (levelCompleted (pollEvents (events inp) w) = false ->
      scanHits (obstacles (beforeObstacleScan inp (pollEvents (events inp) w)))
               (beforeObstacleScan inp (pollEvents (events inp) w)) = false).
Proof.
  unfold frameResets. cbv zeta.
  generalize (pollEvents (events inp) w). intros w1 H.
  apply orb_false_iff in H. destruct H as [Hp Hs].
  split; [exact Hp|]. intros E. rewrite E in Hs.
  change (negb false) with true in Hs. rewrite andb_true_l in Hs. exact Hs.
Qed.

Lemma with_window_open_coinCount (b : bool) (w : World) :
  coinCount (with_window_open b w) = coinCount w.
Proof. reflexivity. Qed.

Lemma collectCoins_grows (w : World) :
  coinsAccounted w -> (coinCount w <= coinCount (collectCoins w))%Z.
Proof.
  intros H. destruct (coinsAccounted_range w H) as [Hr Hm].
  rewrite collectCoins_count by assumption. lia.
Qed.

Lemma frame_coinCount_no_reset (inp : Input) (w : World) :
  coinsAccounted w -> frameResets inp w = false ->
  (coinCount w <= coinCount (frame inp w))%Z.
Proof.
  intros H Hn. destruct (frameResets_false inp w Hn) as [Hp Hs].
  assert (En1 : coinCount (pollEvents (events inp) w) = coinCount w).
  { rewrite (pollEvents_quiet (events inp) w Hp).
    apply with_window_open_coinCount. }
  pose proof (coinsAccounted_pollEvents (events inp) w H) as H1.
  destruct (levelCompleted (pollEvents (events inp) w)) eqn:E.
  - rewrite frame_closed_gate by exact E. rewrite En1. lia.
  - rewrite frame_open_gate by exact E. specialize (Hs eq_refl).
    rewrite <- En1. clear En1 E Hp H Hn.
    revert Hs H1. generalize (pollEvents (events inp) w). intros w1 Hs H1.
    destruct (movesOnlyPlayer_fields _ _ (beforeObstacleScan_player_only inp w1))
      as (_ & Ec & En & _ & _ & Ed & _).
    pose proof (coinsAccounted_ext w1 _ Ed En Ec H1) as H2.
    rewrite <- En. clear Ec En Ed H1. revert Hs H2.
    generalize (beforeObstacleScan inp w1). intros w2 Hs H2.
    rewrite obstacleScan_eq, Hs.
    assert (H3 : coinsAccounted (with_obstacles (map (patrol (walls w2)) (obstacles w2)) w2))
      by (apply (coinsAccounted_ext w2); [reflexivity .. | exact H2]).
    assert (E3 : coinCount w2
                 = coinCount (with_obstacles (map (patrol (walls w2)) (obstacles w2)) w2))
      by reflexivity.
    rewrite E3. revert H3.
    generalize (with_obstacles (map (patrol (walls w2)) (obstacles w2)) w2).
    intros w3 H3.
    destruct (closing_fields (collectCoins w3)) as (_ & E2 & _).
    rewrite E2. now apply collectCoins_grows.
Qed.

(** C7.  In the worlds the game reaches, a frame that does not call
    [resetGame] never lowers [coinCount]; and a coin scan removes exactly the
    coins whose bounds meet the player's, keeps the others in their order,
    and runs [coinCount++] once for each coin removed, which adds their
    number to the counter as long as the [int] does not overflow (it cannot
    in the worlds the game reaches, where counter and coins add up to 3). *)
Theorem coin_count_monotone_and_scan_exact :
  (forall (inp : Input) (w : World),
      reachable w -> frameResets inp w = false ->
      (coinCount w <= coinCount (frame inp w))%Z)
  /\ (forall w : World,
        coins (collectCoins w)
        = filter (fun c => negb (Coin.isCollected (player w) c)) (coins w)
        /\ coinCount (collectCoins w)
           = Nat.iter (List.length (filter (Coin.isCollected (player w)) (coins w)))
                      int_incr (coinCount w)
        /\ (List.length (coins (collectCoins w))
            + List.length (filter (Coin.isCollected (player w)) (coins w))
            = List.length (coins w))%nat
        /\ (int_range (coinCount w) ->
            (coinCount w + Z.of_nat (List.length (coins w)) <= INT_MAX)%Z ->
            coinCount (collectCoins w)
            = (coinCount w
               + Z.of_nat (List.length (filter (Coin.isCollected (player w)) (coins w))))%Z))
  /\ (forall w : World,
        reachable w ->
        int_range (coinCount w)
        /\ (coinCount w + Z.of_nat (List.length (coins w)) = 3)%Z).
Proof.
  split; [|split].
  - intros inp w Hr. apply frame_coinCount_no_reset, reachable_coinsAccounted, Hr.
  - intros w. rewrite collectCoins_coins.
    pose proof (collected_remaining_length (player w) (coins w)) as Hl.
    split; [reflexivity|]. split; [rewrite collectCoins_eq; reflexivity|].
    split; [unfold collected, remaining in *; lia|].
    intros Hr Hm. apply (collectCoins_count w Hr Hm).
  - intros w Hr. pose proof (reachable_coinsAccounted w Hr) as Ha.
    split; [apply (coinsAccounted_range w Ha)|]. apply Ha.
Qed.

(** ** A finished level *)

Lemma handleEvent_restart (e : sf.Event) (w : World) :
  restartRequested e w = true ->
  handleEvent e w = resetGame (if isClosed e then with_window_open false w else w).
Proof.
  unfold handleEvent. intros H.
  destruct (isClosed e); rewrite ?restartRequested_window, H; reflexivity.
Qed.

Lemma frame_quiet_completed (inp : Input) (w : World) :
  levelCompleted w = true ->
  pollEventsResets (events inp) w = false ->
  frame inp w = with_window_open (window_open (frame inp w)) w.
Proof.
  intros Hc Hq. pose proof (pollEvents_quiet (events inp) w Hq) as E.
  assert (Hc1 : levelCompleted (pollEvents (events inp) w) = true).
  { rewrite E. generalize (window_open (pollEvents (events inp) w)). intros b.
    exact Hc. }
  rewrite (frame_closed_gate inp w Hc1). exact E.
Qed.

(** C8, as the code has it.  A frame whose gate [if (!levelCompleted)] is
    closed is the event loop alone; so a frame that starts completed and has
    no restart among its events leaves the player, the velocity, the
    obstacles, the coins and the camera as they were, and the level
    completed.  While the level is completed, an event whose key code is R
    calls [resetGame], after which [levelCompleted] and [isOnGround] are
    false; an event with another key code, a key press included, calls
    nothing. *)
Theorem completed_level_waits_for_key_R :
  (forall (inp : Input) (w : World),
      levelCompleted (pollEvents (events inp) w) = true ->
      frame inp w = pollEvents (events inp) w)
  /\ (forall (inp : Input) (w : World),
        levelCompleted w = true ->
        pollEventsResets (events inp) w = false ->
        player (frame inp w) = player w /\ velocity (frame inp w) = velocity w
        /\ obstacles (frame inp w) = obstacles w /\ coins (frame inp w) = coins w
        /\ view (frame inp w) = view w /\ levelCompleted (frame inp w) = true)
  /\ (forall (e : sf.Event) (w : World),
        levelCompleted w = true ->
        sf.key_code e = sf.KeyR ->
        handleEvent e w = resetGame (if isClosed e then with_window_open false w else w)
        /\ levelCompleted (handleEvent e w) = false
        /\ isOnGround (handleEvent e w) = false)
  /\ (forall (e : sf.Event) (w : World),
        levelCompleted w = true ->
        sf.key_code e <> sf.KeyR ->
        handleEvent e w = if isClosed e then with_window_open false w else w).
Proof.
  split; [|split; [|split]].
  - intros inp w H. now apply frame_closed_gate.
  - intros inp w Hc Hq. rewrite (frame_quiet_completed inp w Hc Hq).
    generalize (window_open (frame inp w)). intros b.
    repeat split; try reflexivity. exact Hc.
  - intros e w Hc Hk.
    assert (Hr : restartRequested e w = true)
      by (unfold restartRequested; rewrite Hc, Hk; reflexivity).
    rewrite (handleEvent_restart e w Hr).
    generalize (if isClosed e then with_window_open false w else w). intros w'.
    rewrite resetGame_eq. repeat split; reflexivity.
  - intros e w Hc Hk. unfold handleEvent.
    assert (Hr : restartRequested e w = false).
    { unfold restartRequested. rewrite Hc.
      destruct (sf.key_code e); try reflexivity. now elim Hk. }
    destruct (isClosed e); rewrite ?restartRequested_window, Hr; reflexivity.
Qed.

(** C8, as the claim words it, fails: the level of [main] is won, the key A
    is pressed, and [resetGame] is not called; the level stays completed, at
    the event and at the end of the frame. *)
Lemma key_A_does_not_restart :
  levelCompleted wonWorld = true
  /\ isKeyPressedEvent pressA = true
  /\ restartRequested pressA wonWorld = false
  /\ handleEvent pressA wonWorld = wonWorld
  /\ handleEvent pressA wonWorld <> resetGame wonWorld
  /\ levelCompleted (frame (MakeInput [pressA] noKeys) wonWorld) = true.
Proof.
  repeat split; try reflexivity.
  intros H. apply (f_equal levelCompleted) in H. discriminate H.
Qed.

(** ** Walls *)

Lemma min_le_l (a b : float) : sf.min a b <= a.
Proof.
  unfold sf.min. destruct (fltb b a) eqn:E.
  - apply fltb_lt in E. lra.
  - lra.
Qed.

Lemma max_ge_r (a b : float) : b <= sf.max a b.
Proof.
  unfold sf.max. destruct (fltb a b) eqn:E.
  - lra.
  - apply fltb_ge in E. lra.
Qed.

Lemma min_le_r (a b : float) : sf.min a b <= b.
Proof.
  unfold sf.min. destruct (fltb b a) eqn:E.
  - lra.
  - apply fltb_ge in E. lra.
Qed.

Lemma max_ge_l (a b : float) : a <= sf.max a b.
Proof.
  unfold sf.max. destruct (fltb a b) eqn:E.
  - apply fltb_lt in E. lra.
  - lra.
Qed.

(** Two boxes of which the first ends where the second begins do not
    intersect. *)
Lemma intersects_side_by_side (r1 r2 : sf.FloatRect) :
  0 <= sf.width r1 -> 0 <= sf.width r2 ->
  sf.left r1 + sf.width r1 <= sf.left r2 ->
  sf.intersects r1 r2 = false /\ sf.intersects r2 r1 = false.
Proof.
  intros H1 H2 H.
  split; unfold sf.intersects; apply andb_false_iff; left; apply fltb_ge.
  - eapply Qle_trans; [apply min_le_l|].
    eapply Qle_trans; [|apply max_ge_r].
    unfold sf.max at 1. unfold sf.min at 1.
    destruct (fltb (sf.left r1) _) eqn:E1, (fltb (sf.left r2 + _) _) eqn:E2;
      rewrite ?fltb_lt, ?fltb_ge in *; lra.
  - eapply Qle_trans; [apply min_le_r|].
    eapply Qle_trans; [|apply max_ge_l].
    unfold sf.max at 1. unfold sf.min at 1.
    destruct (fltb (sf.left r1) _) eqn:E1, (fltb (sf.left r2 + _) _) eqn:E2;
      rewrite ?fltb_lt, ?fltb_ge in *; lra.
Qed.

Lemma wall_width_nonneg (wall : Wall.t) :
  0 <= sf.width (sf.RectangleShape.getGlobalBounds (Wall.shape wall)).
Proof.
  unfold sf.RectangleShape.getGlobalBounds. cbn [sf.width].
  pose proof (max_ge_l 0 (sf.x (sf.RectangleShape.getSize (Wall.shape wall)))).
  pose proof (min_le_l 0 (sf.x (sf.RectangleShape.getSize (Wall.shape wall)))).
  lra.
Qed.

Lemma hitsFromLeft_iff (vel : sf.Vector2f) (pb wb : sf.FloatRect) :
  hitsFromLeft vel pb wb = true
  <-> 0 < sf.x vel /\ sf.left wb < sf.left pb + sf.width pb /\ sf.left pb < sf.left wb.
Proof.
  unfold hitsFromLeft, fgtb. rewrite !andb_true_iff, !fltb_lt. tauto.
Qed.

Lemma hitsFromRight_iff (vel : sf.Vector2f) (pb wb : sf.FloatRect) :
  hitsFromRight vel pb wb = true
  <-> sf.x vel < 0 /\ sf.left pb < sf.left wb + sf.width wb
      /\ sf.left wb + sf.width wb < sf.left pb + sf.width pb.
Proof.
  unfold hitsFromRight, fgtb. rewrite !andb_true_iff, !fltb_lt. tauto.
Qed.

Lemma wallCollision_vertical (wall : Wall.t) (w : World) :
  sf.y (sf.CircleShape.getPosition (player (wallCollision wall w)))
  = sf.y (sf.CircleShape.getPosition (player w))
  /\ sf.y (velocity (wallCollision wall w)) = sf.y (velocity w)
  /\ sf.CircleShape.getRadius (player (wallCollision wall w))
     = sf.CircleShape.getRadius (player w)
  /\ isOnGround (wallCollision wall w) = isOnGround w.
Proof.
  unfold wallCollision.
  destruct (sf.intersects _ _); [|repeat split; reflexivity].
  destruct (hitsFromLeft _ _ _); [repeat split; reflexivity|].
  destruct (hitsFromRight _ _ _); repeat split; reflexivity.
Qed.

Lemma wallCollisions_vertical (ws : list Wall.t) (w : World) :
  sf.y (sf.CircleShape.getPosition
          (player (fold_left (fun w wall => wallCollision wall w) ws w)))
  = sf.y (sf.CircleShape.getPosition (player w))
  /\ sf.y (velocity (fold_left (fun w wall => wallCollision wall w) ws w))
     = sf.y (velocity w).
Proof.
  revert w. induction ws as [|wall ws IH]; intros w; cbn [fold_left].
  - split; reflexivity.
  - destruct (IH (wallCollision wall w)) as [E1 E2].
    destruct (wallCollision_vertical wall w) as (F1 & F2 & _).
    rewrite E1, E2. split; assumption.
Qed.

(** C6, as the code has it.  For a wall whose bounding box meets the
    player's: if the player moves right and its right edge is past the wall's
    left edge while its left edge is not, it is put against the wall's left
    side (its right edge on the wall's left edge, the boxes no longer
    meeting) and stopped; else if it moves left and its left edge is before
    the wall's right edge while its right edge is beyond, it is put against
    the wall's right side and stopped; else the wall does nothing.  In every
    case the player's [y], its vertical velocity and the rest of the world
    are as they were, and so they are after the pass over all the walls. *)
Theorem wall_collision_effect :
  (forall (wall : Wall.t) (w : World),
      let pb := sf.CircleShape.getGlobalBounds (player w) in
      let wb := sf.RectangleShape.getGlobalBounds (Wall.shape wall) in
      let w' := wallCollision wall w in
      let pb' := sf.CircleShape.getGlobalBounds (player w') in
      sf.intersects pb wb = true ->
      (hitsFromLeft (velocity w) pb wb = true ->
         sf.x (sf.CircleShape.getPosition (player w')) = sf.left wb - sf.width pb
         /\ sf.left pb' + sf.width pb' == sf.left wb
         /\ sf.intersects pb' wb = false
         /\ sf.x (velocity w') = 0)
      /\ (hitsFromLeft (velocity w) pb wb = false ->
          hitsFromRight (velocity w) pb wb = true ->
            sf.x (sf.CircleShape.getPosition (player w')) = sf.left wb + sf.width wb
            /\ sf.left pb' == sf.left wb + sf.width wb
            /\ sf.intersects pb' wb = false
            /\ sf.x (velocity w') = 0)
      /\ (hitsFromLeft (velocity w) pb wb = false ->
          hitsFromRight (velocity w) pb wb = false ->
            w' = w)
      /\ sf.y (sf.CircleShape.getPosition (player w'))
         = sf.y (sf.CircleShape.getPosition (player w))
      /\ sf.y (velocity w') = sf.y (velocity w)
      /\ movesOnlyPlayer w w')
  /\ (forall (vel : sf.Vector2f) (pb wb : sf.FloatRect),
        (hitsFromLeft vel pb wb = true
         <-> 0 < sf.x vel /\ sf.left wb < sf.left pb + sf.width pb
             /\ sf.left pb < sf.left wb)
        /\ (hitsFromRight vel pb wb = true
            <-> sf.x vel < 0 /\ sf.left pb < sf.left wb + sf.width wb
                /\ sf.left wb + sf.width wb < sf.left pb + sf.width pb))
  /\ (forall w : World,
        sf.y (sf.CircleShape.getPosition (player (wallCollisions w)))
        = sf.y (sf.CircleShape.getPosition (player w))
        /\ sf.y (velocity (wallCollisions w)) = sf.y (velocity w)).
Proof.
  split; [|split].
  2: { intros vel pb wb. split; [apply hitsFromLeft_iff | apply hitsFromRight_iff]. }
  2: { intros w. apply wallCollisions_vertical. }
  intros wall w pb wb w' pb' Hi.
  destruct (wallCollision_vertical wall w) as (Vy & Vv & _).
  pose proof (wallCollision_player_only wall w) as Vm.
  fold w' in Vy, Vv, Vm.
  cut ((hitsFromLeft (velocity w) pb wb = true ->
         sf.x (sf.CircleShape.getPosition (player w')) = sf.left wb - sf.width pb
         /\ sf.left pb' + sf.width pb' == sf.left wb
         /\ sf.intersects pb' wb = false
         /\ sf.x (velocity w') = 0)
      /\ (hitsFromLeft (velocity w) pb wb = false ->
          hitsFromRight (velocity w) pb wb = true ->
            sf.x (sf.CircleShape.getPosition (player w')) = sf.left wb + sf.width wb
            /\ sf.left pb' == sf.left wb + sf.width wb
            /\ sf.intersects pb' wb = false
            /\ sf.x (velocity w') = 0)
      /\ (hitsFromLeft (velocity w) pb wb = false ->
          hitsFromRight (velocity w) pb wb = false ->
            w' = w)).
  { intros (C1 & C2 & C3). repeat (split; [assumption|]). assumption. }
  clear Vy Vv Vm. subst pb'. subst w'. unfold wallCollision.
  fold pb. fold wb. rewrite Hi.
  pose proof (wall_width_nonneg wall) as Hw. fold wb in Hw.
  destruct (hitsFromLeft (velocity w) pb wb) eqn:HL;
    [|destruct (hitsFromRight (velocity w) pb wb) eqn:HR].
  - apply hitsFromLeft_iff in HL. destruct HL as (Hv & H1 & H2).
    assert (Hp : 0 <= sf.width pb) by lra.
    repeat split; try discriminate; try reflexivity.
    + subst pb. cbn. ring.
    + apply (intersects_side_by_side
               (sf.CircleShape.getGlobalBounds
                  (sf.CircleShape.setPosition (sf.left wb - sf.width pb)
                     (sf.y (sf.CircleShape.getPosition (player w))) (player w)))
               wb); [exact Hp | exact Hw |].
      subst pb. cbn. lra.
  - apply hitsFromRight_iff in HR. destruct HR as (Hv & H1 & H2).
    assert (Hp : 0 <= sf.width pb) by lra.
    repeat split; try discriminate; try reflexivity.
    apply (intersects_side_by_side wb
             (sf.CircleShape.getGlobalBounds
                (sf.CircleShape.setPosition (sf.left wb + sf.width wb)
                   (sf.y (sf.CircleShape.getPosition (player w))) (player w))));
      [exact Hw | exact Hp |].
    cbn. lra.
  - repeat split; try discriminate; try reflexivity.
Qed.

(** C6, as the claim words it, fails: the ball comes down on the top of a
    wall while moving right, its left edge already past the wall's; the
    boxes meet, and the player is neither moved nor stopped. *)
Lemma wall_top_neither_snaps_nor_stops :
  sf.intersects (sf.CircleShape.getGlobalBounds (player overWall))
                (sf.RectangleShape.getGlobalBounds (Wall.shape secondWall)) = true
  /\ In secondWall (walls overWall)
  /\ wallCollision secondWall overWall = overWall
  /\ ~ sf.x (velocity (wallCollision secondWall overWall)) == 0
  /\ sf.intersects
       (sf.CircleShape.getGlobalBounds (player (wallCollision secondWall overWall)))
       (sf.RectangleShape.getGlobalBounds (Wall.shape secondWall)) = true.
Proof.
  repeat split; try reflexivity.
  - right. left. reflexivity.
  - discriminate.
Qed.

(** ** Patrolling obstacles *)


Lemma atLimit_false_iff (o : Obstacle.t) :
  Obstacle.atLimit o = false
  <-> Obstacle.leftLimit o < leftEdge o /\ rightEdge o < Obstacle.rightLimit o.
Proof.
  unfold Obstacle.atLimit, fgeb. rewrite orb_false_iff, !fleb_gt. reflexivity.
Qed.

Lemma move_eq (o : Obstacle.t) :
  Obstacle.move o
  = Obstacle.Make (Obstacle.shape (advanced o))
      (if Obstacle.atLimit (advanced o) then - Obstacle.velocityX o else Obstacle.velocityX o)
      (Obstacle.leftLimit o) (Obstacle.rightLimit o).
Proof.
  unfold Obstacle.move. fold (advanced o).
  destruct (Obstacle.atLimit (advanced o)); reflexivity.
Qed.

Lemma handleWallCollision_eq (wall : Wall.t) (o : Obstacle.t) :
  Obstacle.handleWallCollision wall o
  = Obstacle.Make (Obstacle.shape o)
      (if Obstacle.touches wall o then - Obstacle.velocityX o else Obstacle.velocityX o)
      (Obstacle.leftLimit o) (Obstacle.rightLimit o).
Proof.
  unfold Obstacle.handleWallCollision.
  destruct (Obstacle.touches wall o); [reflexivity | now destruct o].
Qed.

Lemma wallHits_shape (ws : list Wall.t) (o o' : Obstacle.t) :
  Obstacle.shape o' = Obstacle.shape o -> wallHits ws o' = wallHits ws o.
Proof.
  intros H. unfold wallHits. f_equal. apply filter_ext. intros wall.
  unfold Obstacle.touches. now rewrite H.
Qed.

Lemma negated_0 (v : float) : negated 0 v = v.
Proof. reflexivity. Qed.

Lemma negated_S (n : nat) (v : float) : negated (S n) v = - negated n v.
Proof. reflexivity. Qed.

Lemma negated_opp (n : nat) (v : float) : negated n (- v) = - negated n v.
Proof.
  induction n as [|n IH]; [reflexivity|]. now rewrite !negated_S, IH.
Qed.

Lemma wall_pass_eq (ws : list Wall.t) (o : Obstacle.t) :
  fold_left (fun o wall => Obstacle.handleWallCollision wall o) ws o
  = Obstacle.Make (Obstacle.shape o) (negated (wallHits ws o) (Obstacle.velocityX o))
      (Obstacle.leftLimit o) (Obstacle.rightLimit o).
Proof.
  revert o. induction ws as [|wall ws IH]; intros o.
  - now destruct o.
  - cbn [fold_left]. rewrite IH, handleWallCollision_eq.
    cbn [Obstacle.shape Obstacle.velocityX Obstacle.leftLimit Obstacle.rightLimit].
    rewrite (wallHits_shape ws o (Obstacle.Make _ _ _ _)) by reflexivity.
    unfold wallHits at 2. cbn [filter].
    destruct (Obstacle.touches wall o); cbn [List.length].
    + rewrite negated_opp, negated_S. reflexivity.
    + reflexivity.
Qed.

Lemma patrol_eq (ws : list Wall.t) (o : Obstacle.t) :
  patrol ws o
  = Obstacle.Make (Obstacle.shape (advanced o))
      (negated (wallHits ws (advanced o)) (Obstacle.velocityX (Obstacle.move o)))
      (Obstacle.leftLimit o) (Obstacle.rightLimit o).
Proof.
  unfold patrol. rewrite wall_pass_eq.
  rewrite (wallHits_shape ws (advanced o) (Obstacle.move o))
    by (rewrite move_eq; reflexivity).
  rewrite move_eq. reflexivity.
Qed.

Lemma Qabs_negated (n : nat) (v : float) : Qabs (negated n v) == Qabs v.
Proof.
  induction n as [|n IH]; [reflexivity|]. now rewrite negated_S, Qabs_opp.
Qed.

Lemma Qabs_sign (v : float) :
  (0 <= v /\ Qabs v == v) \/ (v < 0 /\ Qabs v == - v).
Proof.
  destruct (Qlt_le_dec v 0) as [H|H].
  - right. split; [exact H|]. apply Qabs_neg. lra.
  - left. split; [exact H|]. now apply Qabs_pos.
Qed.

(** [lra] with the absolute values taken as unknowns. *)
Ltac lra_abs :=
  repeat match goal with
         | |- context [Qabs ?v] =>
             let a := fresh "a" in set (a := Qabs v) in *; clearbody a
         | H : context [Qabs ?v] |- _ =>
             let a := fresh "a" in set (a := Qabs v) in *; clearbody a
         end;
  lra.

Lemma inBounds_patrolInv (o : Obstacle.t) : inBounds o -> patrolInv o.
Proof.
  unfold inBounds, patrolInv. intros [H1 H2].
  pose proof (Qabs_nonneg (Obstacle.velocityX o)).
  repeat split; intros; lra_abs.
Qed.

Lemma patrol_fields (ws : list Wall.t) (o : Obstacle.t) :
  Obstacle.leftLimit (patrol ws o) = Obstacle.leftLimit o
  /\ Obstacle.rightLimit (patrol ws o) = Obstacle.rightLimit o
  /\ Qabs (Obstacle.velocityX (patrol ws o)) == Qabs (Obstacle.velocityX o)
  /\ leftEdge (patrol ws o) = leftEdge o + Obstacle.velocityX o
  /\ rightEdge (patrol ws o) == rightEdge o + Obstacle.velocityX o.
Proof.
  rewrite patrol_eq, move_eq.
  cbn [Obstacle.leftLimit Obstacle.rightLimit Obstacle.velocityX].
  repeat split.
  - rewrite Qabs_negated.
    destruct (Obstacle.atLimit (advanced o)); [apply Qabs_opp | reflexivity].
  - unfold rightEdge. cbn. ring.
Qed.

Lemma patrol_patrolInv (ws : list Wall.t) (o : Obstacle.t) :
  patrolInv o ->
  (Obstacle.atLimit (advanced o) = true -> wallHits ws (advanced o) = 0%nat) ->
  patrolInv (patrol ws o).
Proof.
  intros (I1 & I2 & I3 & I4) Hc.
  destruct (patrol_fields ws o) as (EL & ER & EA & El & Er).
  unfold patrolInv. rewrite EL, ER, EA, El, Er.
  assert (El' : leftEdge (advanced o) = leftEdge o + Obstacle.velocityX o) by reflexivity.
  assert (Er' : rightEdge (advanced o) == rightEdge o + Obstacle.velocityX o)
    by (unfold rightEdge; cbn; ring).
  destruct (Qabs_sign (Obstacle.velocityX o)) as [[Hs Ha]|[Hs Ha]];
    destruct (Obstacle.atLimit (advanced o)) eqn:E.
  - rewrite patrol_eq, move_eq, E, (Hc eq_refl).
    cbn [Obstacle.velocityX]. rewrite negated_0.
    repeat split; intros; lra_abs.
  - apply atLimit_false_iff in E. cbn [advanced Obstacle.leftLimit Obstacle.rightLimit] in E.
    rewrite El', Er' in E. repeat split; intros; lra_abs.
  - rewrite patrol_eq, move_eq, E, (Hc eq_refl).
    cbn [Obstacle.velocityX]. rewrite negated_0.
    repeat split; intros; lra_abs.
  - apply atLimit_false_iff in E. cbn [advanced Obstacle.leftLimit Obstacle.rightLimit] in E.
    rewrite El', Er' in E. repeat split; intros; lra_abs.
Qed.

Lemma noCompounding_S (ws : list Wall.t) (o : Obstacle.t) (n : nat) :
  noCompounding ws o (S n) ->
  noCompounding ws o n
  /\ (Obstacle.atLimit (advanced (Nat.iter n (patrol ws) o)) = true ->
      wallHits ws (advanced (Nat.iter n (patrol ws) o)) = 0%nat).
Proof.
  unfold noCompounding. intros H. split.
  - intros k Hk. apply H. lia.
  - apply H. lia.
Qed.

Lemma patrol_iter (ws : list Wall.t) (o : Obstacle.t) (n : nat) :
  patrolInv o -> noCompounding ws o n ->
  patrolInv (Nat.iter n (patrol ws) o)
  /\ Obstacle.leftLimit (Nat.iter n (patrol ws) o) = Obstacle.leftLimit o
  /\ Obstacle.rightLimit (Nat.iter n (patrol ws) o) = Obstacle.rightLimit o
  /\ Qabs (Obstacle.velocityX (Nat.iter n (patrol ws) o)) == Qabs (Obstacle.velocityX o).
Proof.
  intros Hi. induction n as [|n IH]; intros Hc.
  - split; [exact Hi | repeat split; reflexivity].
  - apply noCompounding_S in Hc. destruct Hc as [Hc Hn].
    destruct (IH Hc) as (I & EL & ER & EA).
    change (Nat.iter (S n) (patrol ws) o) with (patrol ws (Nat.iter n (patrol ws) o)).
    revert Hn I EL ER EA. generalize (Nat.iter n (patrol ws) o). intros o' Hn I EL ER EA.
    destruct (patrol_fields ws o') as (FL & FR & FA & _).
    split; [now apply patrol_patrolInv|].
    split; [congruence|]. split; [congruence|]. now rewrite FA.
Qed.

Lemma noCompoundingb_sound (ws : list Wall.t) (o : Obstacle.t) (n : nat) :
  noCompoundingb ws o n = true -> noCompounding ws o n.
Proof.
  revert o. induction n as [|n IH]; intros o H k Hk Ha; [lia|].
  cbn [noCompoundingb] in H. apply andb_true_iff in H. destruct H as [H0 Hn].
  destruct k as [|k].
  - change (Nat.iter 0 (patrol ws) o) with o in *.
    rewrite Ha in H0. now apply Nat.eqb_eq in H0.
  - rewrite Nat.iter_succ_r in *. apply (IH (patrol ws o) Hn k); [lia | exact Ha].
Qed.

Lemma iter_period {A : Type} (f : A -> A) (a : A) (T k : nat) :
  Nat.iter T f a = a -> Nat.iter k f a = Nat.iter (k mod T) f a.
Proof.
  intros HT. destruct T as [|T]; [reflexivity|].
  transitivity (Nat.iter (k mod S T + S T * (k / S T)) f a).
  { f_equal. rewrite Nat.add_comm. apply Nat.div_mod_eq. }
  rewrite Nat.iter_add. f_equal.
  generalize (k / S T)%nat. intros q. induction q as [|q IH].
  - now rewrite Nat.mul_0_r.
  - rewrite Nat.mul_succ_r, Nat.iter_add, HT. exact IH.
Qed.

(** An obstacle that comes back to its start without compounding never
    compounds. *)
Lemma noCompounding_periodic (ws : list Wall.t) (o : Obstacle.t) (T : nat) :
  (0 < T)%nat -> Nat.iter T (patrol ws) o = o -> noCompounding ws o T ->
  forall n, noCompounding ws o n.
Proof.
  intros HT Hp Hc n k _. rewrite (iter_period (patrol ws) o T k Hp).
  apply Hc. apply Nat.mod_upper_bound. lia.
Qed.

(** In the level of [main] no obstacle ever has the limit test and a wall
    test fire in the same turn: each comes back to its start, after 350,
    152, 250, 232 and 250 turns. *)
Lemma main_obstacles_never_compound (o : Obstacle.t) (n : nat) :
  In o (obstacles initial) -> noCompounding (walls initial) o n.
Proof.
  intros Hin. revert n.
  cbn [obstacles initial In] in Hin.
  destruct Hin as [<-|[<-|[<-|[<-|[<-|[]]]]]].
  - apply (noCompounding_periodic _ _ 350); [lia | vm_compute; reflexivity |].
    apply noCompoundingb_sound. vm_compute. reflexivity.
  - apply (noCompounding_periodic _ _ 152); [lia | vm_compute; reflexivity |].
    apply noCompoundingb_sound. vm_compute. reflexivity.
  - apply (noCompounding_periodic _ _ 250); [lia | vm_compute; reflexivity |].
    apply noCompoundingb_sound. vm_compute. reflexivity.
  - apply (noCompounding_periodic _ _ 232); [lia | vm_compute; reflexivity |].
    apply noCompoundingb_sound. vm_compute. reflexivity.
  - apply (noCompounding_periodic _ _ 250); [lia | vm_compute; reflexivity |].
    apply noCompoundingb_sound. vm_compute. reflexivity.
Qed.

(** Hence the obstacles of the game stay within one step of their limits
    for ever. *)
Lemma main_obstacles_stay_near_limits (o : Obstacle.t) (n : nat) :
  In o (obstacles initial) ->
  Obstacle.leftLimit o - 2 <= leftEdge (Nat.iter n (patrol (walls initial)) o)
  /\ rightEdge (Nat.iter n (patrol (walls initial)) o) <= Obstacle.rightLimit o + 2.
Proof.
  intros Hin.
  assert (Hb : inBounds o /\ Qabs (Obstacle.velocityX o) == 2).
  { cbn [obstacles initial In] in Hin.
    destruct Hin as [<-|[<-|[<-|[<-|[<-|[]]]]]];
      (split; [split; vm_compute; discriminate | reflexivity]). }
  destruct Hb as [Hb Hv].
  destruct (patrol_iter (walls initial) o n (inBounds_patrolInv o Hb)
              (main_obstacles_never_compound o n Hin))
    as ((I1 & I2 & _) & EL & ER & EA).
  rewrite EL, ER, EA, Hv in *. split; assumption.
Qed.



(** ** The theorems at work on the level of [main] *)


(** Over the goal with no coin left, the frame completes the level; and
    the world one idle frame after the start is not completed. *)
Lemma completion_witness :
  levelCompleted (frame idle atGoal) = true
  /\ coins (beforeGoalCheck idle (pollEvents (events idle) atGoal)) = []
  /\ ~ (levelCompleted (frame idle initial) = true /\ coins (frame idle initial) <> []).
Proof.
  split; [|split].
  - apply (proj1 completion_needs_goal_and_no_coin idle atGoal eq_refl).
    split; reflexivity.
  - apply (proj1 (proj1 completion_needs_goal_and_no_coin idle atGoal eq_refl)).
    reflexivity.
  - apply (proj2 completion_needs_goal_and_no_coin (frame idle initial)).
    apply reachable_frame; [apply reachable_initial | reflexivity].
Defined.


(** The ball stands where the first obstacle arrives: the scan ends in the
    reset world. *)
Lemma obstacle_contact_witness :
  obstacleScan besideObstacle
  = with_obstacles (map (patrol (walls besideObstacle)) (obstacles besideObstacle))
                   (resetGame besideObstacle).
Proof.
  apply (obstacle_contact_resets besideObstacle []
           (skipn 1 (obstacles besideObstacle)) (Obstacle.new 50 50 800 530 700 1100)
           eq_refl eq_refl).
Defined.

(** The ball runs into the second wall from the left: it is put at
    1600 - 40 and stopped, at the height it had. *)
Lemma wall_collision_witness :
  sf.x (sf.CircleShape.getPosition (player (wallCollision secondWall againstWall))) == 1560
  /\ sf.x (velocity (wallCollision secondWall againstWall)) = 0
  /\ sf.y (sf.CircleShape.getPosition (player (wallCollision secondWall againstWall)))
     = 500.
Proof.
  destruct (proj1 wall_collision_effect secondWall againstWall eq_refl)
    as (HL & _ & _ & Hy & _).
  destruct (HL eq_refl) as (Hx & _ & _ & Hv).
  split; [|split].
  - rewrite Hx. reflexivity.
  - exact Hv.
  - exact Hy.
Defined.

(** An idle frame from the start keeps the counter; the ball on the first
    coin takes it and only it. *)
Lemma coin_count_witness :
  (coinCount initial <= coinCount (frame idle initial))%Z
  /\ coins (collectCoins onCoin) = [Coin.new 10 1200 400; Coin.new 10 2000 450]
  /\ coinCount (collectCoins onCoin) = 1%Z.
Proof.
  split.
  - apply (proj1 coin_count_monotone_and_scan_exact idle initial reachable_initial eq_refl).
  - assert (Hr : int_range (coinCount onCoin)) by (split; discriminate).
    assert (Hm : (coinCount onCoin + Z.of_nat (List.length (coins onCoin)) <= INT_MAX)%Z)
      by discriminate.
    destruct (proj1 (proj2 coin_count_monotone_and_scan_exact) onCoin)
      as (Hc & _ & _ & Hn).
    split.
    + rewrite Hc. reflexivity.
    + rewrite (Hn Hr Hm). reflexivity.
Defined.

(** The level is won: the key A changes nothing, the key R resets. *)
Lemma completed_level_witness :
  frame (MakeInput [pressA] noKeys) wonWorld = wonWorld
  /\ coins (frame (MakeInput [pressA] noKeys) wonWorld) = []
  /\ handleEvent pressR wonWorld = resetGame wonWorld
  /\ levelCompleted (handleEvent pressR wonWorld) = false
  /\ handleEvent pressA wonWorld = wonWorld.
Proof.
  destruct completed_level_waits_for_key_R as (H1 & H2 & H3 & H4).
  split; [|split; [|split; [|split]]].
  - exact (H1 (MakeInput [pressA] noKeys) wonWorld eq_refl).
  - exact (proj1 (proj2 (proj2 (proj2
             (H2 (MakeInput [pressA] noKeys) wonWorld eq_refl eq_refl))))).
  - exact (proj1 (H3 pressR wonWorld eq_refl eq_refl)).
  - exact (proj1 (proj2 (H3 pressR wonWorld eq_refl eq_refl))).
  - apply (H4 pressA wonWorld eq_refl). discriminate.
Defined.

(** The ball meets the first obstacle: at the end of the frame it stands on
    the spawn point, the five obstacles have moved, the three coins are back
    and the camera looks at 600. *)
Lemma reset_frame_witness :
  obstacles (frame idle besideObstacle)
  = map (patrol (walls besideObstacle)) (obstacles besideObstacle)
  /\ sf.CircleShape.getPosition (player (frame idle besideObstacle)) = sf.Vec 400 300
  /\ List.length (coins (frame idle besideObstacle)) = 3%nat
  /\ levelCompleted (frame idle besideObstacle) = false
  /\ sf.getCenter (view (frame idle besideObstacle)) = sf.Vec 600 300.
Proof.
  destruct (reset_does_not_abort_frame idle besideObstacle []
              (skipn 1 (obstacles besideObstacle)) (Obstacle.new 50 50 800 530 700 1100)
              eq_refl eq_refl eq_refl)
    as (_ & Ho & Hp & Hc & _ & Hl & Hv).
  split; [|split; [|split; [|split]]].
  - rewrite Ho. reflexivity.
  - rewrite Hp. reflexivity.
  - rewrite Hc. reflexivity.
  - rewrite Hl. reflexivity.
  - rewrite Hv, Hl. reflexivity.
Defined.

(** * Further properties of the loop *)

(** ** The event loop in closed form *)

Lemma with_window_open_twice (b1 b2 : bool) (w : World) :
  with_window_open b2 (with_window_open b1 w) = with_window_open b2 w.
Proof. reflexivity. Qed.

Lemma with_window_open_same (w : World) : with_window_open (window_open w) w = w.
Proof. now destruct w. Qed.

Lemma resetGame_window (b : bool) (w : World) :
  resetGame (with_window_open b w) = with_window_open b (resetGame w).
Proof. rewrite !resetGame_eq. reflexivity. Qed.

Lemma restartRequested_iff (e : sf.Event) (w : World) :
  restartRequested e w = true
  <-> sf.key_code e = sf.KeyR
      /\ (levelCompleted w = true \/ sf.type e = sf.KeyPressed).
Proof.
  unfold restartRequested, isKeyPressedEvent.
  rewrite andb_true_iff, orb_true_iff.
  destruct (sf.key_code e), (sf.type e), (levelCompleted w); cbn;
    intuition congruence.
Qed.

Lemma handleEvent_eq (e : sf.Event) (w : World) :
  handleEvent e w
  = with_window_open (window_open w && negb (isClosed e))
      (if restartRequested e w then resetGame w else w).
Proof.
  unfold handleEvent.
  destruct (isClosed e); rewrite ?restartRequested_window;
    destruct (restartRequested e w); cbn [negb];
    rewrite ?andb_false_r, ?andb_true_r, ?resetGame_window;
    try reflexivity.
  now destruct w.
Qed.

Lemma window_open_with (b : bool) (w : World) :
  window_open (with_window_open b w) = b.
Proof. reflexivity. Qed.

Lemma pollEvents_eq (evs : list sf.Event) (w : World) :
  pollEvents evs w
  = with_window_open (window_open w && negb (existsb isClosed evs))
      (if existsb (fun e => restartRequested e w) evs then resetGame w else w).
Proof.
  unfold pollEvents. revert w. induction evs as [|e evs IH]; intros w.
  - cbn [fold_left existsb negb]. rewrite andb_true_r. now destruct w.
  - cbn [fold_left existsb]. rewrite IH, handleEvent_eq. clear IH.
    rewrite window_open_with, negb_orb, andb_assoc.
    generalize (window_open w && negb (isClosed e)). intros b.
    generalize (negb (existsb isClosed evs)). intros b'.
    destruct (restartRequested e w) eqn:He.
    + cbn [orb].
      change (fun e0 : sf.Event =>
                restartRequested e0 (with_window_open b (resetGame w)))
        with (fun e0 : sf.Event => restartRequested e0 (resetGame w)).
      rewrite resetGame_window, resetGame_twice.
      now destruct (existsb _ evs).
    + cbn [orb].
      change (fun e0 : sf.Event => restartRequested e0 (with_window_open b w))
        with (fun e0 : sf.Event => restartRequested e0 w).
      rewrite resetGame_window.
      now destruct (existsb _ evs).
Qed.

Lemma pollEventsResets_eq (evs : list sf.Event) (w : World) :
  pollEventsResets evs w = existsb (fun e => restartRequested e w) evs.
Proof.
  revert w. induction evs as [|e evs IH]; intros w; [reflexivity|].
  cbn [pollEventsResets existsb]. rewrite IH, handleEvent_eq. clear IH.
  generalize (window_open w && negb (isClosed e)). intros b.
  destruct (restartRequested e w) eqn:He; reflexivity.
Qed.

(** X1.  The event loop does two things only.  It closes the window if the
    queue holds a [Closed] event, and it resets the game if the queue holds
    an event that asks for a restart in the world the loop started from: an
    event whose key code is R and that is a key press, or any event with key
    code R once the level is completed.  Everything else in the queue is
    without effect, and so is the order of the events. *)
Theorem event_loop_closes_or_restarts (evs : list sf.Event) (w : World) :
  pollEvents evs w
  = with_window_open (window_open w && negb (existsb isClosed evs))
      (if existsb (fun e => restartRequested e w) evs then resetGame w else w)
  /\ (forall e : sf.Event,
         restartRequested e w = true
         <-> sf.key_code e = sf.KeyR
             /\ (levelCompleted w = true \/ sf.type e = sf.KeyPressed))
  /\ pollEventsResets evs w = existsb (fun e => restartRequested e w) evs.
Proof.
  split; [apply pollEvents_eq|]. split; [intros e; apply restartRequested_iff|].
  apply pollEventsResets_eq.
Qed.

(** ** What no frame writes *)

Lemma sameLevel_refl (w : World) : sameLevel w w.
Proof. unfold sameLevel. repeat split; reflexivity. Qed.

Lemma sameLevel_trans (w1 w2 w3 : World) :
  sameLevel w1 w2 -> sameLevel w2 w3 -> sameLevel w1 w3.
Proof.
  unfold sameLevel. intros (A1 & A2 & A3 & A4 & A5 & A6 & A7)
                           (B1 & B2 & B3 & B4 & B5 & B6 & B7).
  repeat split; congruence.
Qed.

Ltac same_level :=
  repeat match goal with |- context [if ?b then _ else _] => destruct b end;
  unfold sameLevel; repeat split; reflexivity.

Lemma steer_sameLevel (inp : Input) (w : World) :
  sameLevel w (steer inp w) /\ window_open (steer inp w) = window_open w.
Proof. unfold steer. same_level. Qed.

Lemma jump_sameLevel (inp : Input) (w : World) :
  sameLevel w (jump inp w) /\ window_open (jump inp w) = window_open w.
Proof. unfold jump. same_level. Qed.

Lemma applyGravity_sameLevel (w : World) :
  sameLevel w (applyGravity w) /\ window_open (applyGravity w) = window_open w.
Proof. unfold applyGravity. same_level. Qed.

Lemma movePlayer_sameLevel (w : World) :
  sameLevel w (movePlayer w) /\ window_open (movePlayer w) = window_open w.
Proof. unfold movePlayer. same_level. Qed.

Lemma platformCollision_sameLevel (P : Platform.t) (w : World) :
  sameLevel w (platformCollision P w)
  /\ window_open (platformCollision P w) = window_open w.
Proof. unfold platformCollision. same_level. Qed.

Lemma wallCollision_sameLevel (wall : Wall.t) (w : World) :
  sameLevel w (wallCollision wall w)
  /\ window_open (wallCollision wall w) = window_open w.
Proof. unfold wallCollision. same_level. Qed.

Lemma pass_sameLevel {A : Type} (f : A -> World -> World) (l : list A) :
  (forall a w, sameLevel w (f a w) /\ window_open (f a w) = window_open w) ->
  forall w, sameLevel w (fold_left (fun w a => f a w) l w)
            /\ window_open (fold_left (fun w a => f a w) l w) = window_open w.
Proof.
  intros Hf. induction l as [|a l IH]; intros w; cbn [fold_left].
  - split; [apply sameLevel_refl | reflexivity].
  - destruct (Hf a w) as [H1 H2]. destruct (IH (f a w)) as [H3 H4].
    split; [eapply sameLevel_trans; eassumption | congruence].
Qed.

Lemma resetGame_sameLevel (w : World) :
  sameLevel w (resetGame w) /\ window_open (resetGame w) = window_open w.
Proof. rewrite resetGame_eq. unfold sameLevel. repeat split; reflexivity. Qed.

Lemma obstacleScan_sameLevel (w : World) :
  sameLevel w (obstacleScan w) /\ window_open (obstacleScan w) = window_open w.
Proof.
  rewrite obstacleScan_eq.
  generalize (map (patrol (walls w)) (obstacles w)). intros os.
  destruct (scanHits _ _).
  - rewrite resetGame_eq. unfold sameLevel. repeat split; reflexivity.
  - unfold sameLevel. repeat split; reflexivity.
Qed.

Lemma collectCoins_sameLevel (w : World) :
  sameLevel w (collectCoins w) /\ window_open (collectCoins w) = window_open w.
Proof.
  unfold collectCoins. destruct (removeCollected _ _ _).
  unfold sameLevel. repeat split; reflexivity.
Qed.

Lemma closing_sameLevel (c : World) :
  sameLevel c (updateCamera (goalCheck (updateCoinText c)))
  /\ window_open (updateCamera (goalCheck (updateCoinText c))) = window_open c.
Proof.
  unfold updateCamera, goalCheck.
  change (reachesGoal (updateCoinText c)) with (reachesGoal c).
  destruct (reachesGoal c), (levelCompleted c) eqn:E; cbn; rewrite ?E; cbn;
    unfold sameLevel; repeat split; reflexivity.
Qed.

Ltac chain_sameLevel H :=
  let H1 := fresh in let H2 := fresh in
  destruct H as [H1 H2];
  split; [eapply sameLevel_trans; [eassumption | exact H1] | congruence].

Lemma simulate_sameLevel (inp : Input) (w : World) :
  sameLevel w (simulate inp w) /\ window_open (simulate inp w) = window_open w.
Proof.
  unfold simulate, beforeGoalCheck, beforeObstacleScan, wallCollisions, platformCollisions.
  pose proof (steer_sameLevel inp w) as H.
  revert H. generalize (steer inp w). intros w1 H1.
  assert (H2 := jump_sameLevel inp w1). revert H2. generalize (jump inp w1).
  intros w2 H2.
  assert (H3 := applyGravity_sameLevel w2). revert H3. generalize (applyGravity w2).
  intros w3 H3.
  assert (H4 := movePlayer_sameLevel w3). revert H4. generalize (movePlayer w3).
  intros w4 H4.
  assert (H5 := pass_sameLevel platformCollision (platforms w4)
                  platformCollision_sameLevel w4).
  revert H5. generalize (fold_left (fun w p => platformCollision p w) (platforms w4) w4).
  intros w5 H5.
  assert (H6 : sameLevel w5 (floorCollision w5)
               /\ window_open (floorCollision w5) = window_open w5)
    by (rewrite floorCollision_eq; apply platformCollision_sameLevel).
  revert H6. generalize (floorCollision w5). intros w6 H6.
  assert (H7 := pass_sameLevel wallCollision (walls w6) wallCollision_sameLevel w6).
  revert H7. generalize (fold_left (fun w wall => wallCollision wall w) (walls w6) w6).
  intros w7 H7.
  assert (H8 := obstacleScan_sameLevel w7). revert H8. generalize (obstacleScan w7).
  intros w8 H8.
  assert (H9 := collectCoins_sameLevel w8). revert H9. generalize (collectCoins w8).
  intros w9 H9.
  assert (H10 := closing_sameLevel w9).
  revert H10. generalize (updateCamera (goalCheck (updateCoinText w9))). intros w10 H10.
  destruct H1 as [A1 B1], H2 as [A2 B2], H3 as [A3 B3], H4 as [A4 B4],
           H5 as [A5 B5], H6 as [A6 B6], H7 as [A7 B7], H8 as [A8 B8],
           H9 as [A9 B9], H10 as [A10 B10].
  split; [|congruence].
  repeat (eapply sameLevel_trans; [eassumption|]). apply sameLevel_refl.
Qed.

Lemma pollEvents_sameLevel (evs : list sf.Event) (w : World) :
  sameLevel w (pollEvents evs w).
Proof.
  rewrite pollEvents_eq.
  generalize (window_open w && negb (existsb isClosed evs)). intros b.
  destruct (existsb _ evs).
  - apply (sameLevel_trans w (resetGame w)); [apply resetGame_sameLevel|].
    unfold sameLevel. repeat split; reflexivity.
  - unfold sameLevel. repeat split; reflexivity.
Qed.

Lemma frame_sameLevel (inp : Input) (w : World) : sameLevel w (frame inp w).
Proof.
  unfold frame.
  pose proof (pollEvents_sameLevel (events inp) w) as H.
  revert H. generalize (pollEvents (events inp) w). intros w1 H.
  destruct (levelCompleted w1); cbn [negb]; [exact H|].
  eapply sameLevel_trans; [exact H | apply simulate_sameLevel].
Qed.

(** X2.  No frame changes the platforms, the goal, the floor, the walls, the
    default places of the coins, the radius of the ball or the size of the
    view, whatever the events and the keys. *)
Theorem frame_keeps_level (inp : Input) (w : World) :
  platforms (frame inp w) = platforms w /\ goal (frame inp w) = goal w
  /\ floor (frame inp w) = floor w /\ walls (frame inp w) = walls w
  /\ defaultCoinPositions (frame inp w) = defaultCoinPositions w
  /\ sf.CircleShape.getRadius (player (frame inp w))
     = sf.CircleShape.getRadius (player w)
  /\ sf.getSize (view (frame inp w)) = sf.getSize (view w).
Proof. exact (frame_sameLevel inp w). Qed.

Lemma frame_window_open (inp : Input) (w : World) :
  window_open (frame inp w) = window_open w && negb (closes inp).
Proof.
  unfold frame, closes.
  assert (H : window_open (pollEvents (events inp) w)
              = window_open w && negb (existsb isClosed (events inp)))
    by (rewrite pollEvents_eq; reflexivity).
  revert H. generalize (pollEvents (events inp) w). intros w1 H.
  destruct (levelCompleted w1); cbn [negb]; [exact H|].
  rewrite (proj2 (simulate_sameLevel inp w1)). exact H.
Qed.

(** ** The loop as a whole *)

Lemma mainLoop_closed (inputs : list Input) (w : World) :
  window_open w = false -> mainLoop inputs w = Some w.
Proof. intros H. destruct inputs; cbn [mainLoop]; now rewrite H. Qed.

Lemma mainLoop_runs (inputs : list Input) (w : World) :
  window_open w = true ->
  existsb closes inputs = false -> mainLoop inputs w = None.
Proof.
  revert w. induction inputs as [|inp rest IH]; intros w Ho Hc; cbn [mainLoop].
  - now rewrite Ho.
  - rewrite Ho. cbn [existsb] in Hc. apply orb_false_iff in Hc.
    destruct Hc as [Hc Hr]. apply IH; [|exact Hr].
    now rewrite frame_window_open, Ho, Hc.
Qed.

Lemma mainLoop_ends (before after : list Input) (inp : Input) (w : World) :
  window_open w = true ->
  existsb closes before = false -> closes inp = true ->
  mainLoop (before ++ inp :: after) w = Some (frame inp (frames before w)).
Proof.
  unfold frames.
  revert w. induction before as [|b before IH]; intros w Ho Hb Hc.
  - cbn [app mainLoop fold_left]. rewrite Ho. apply mainLoop_closed.
    now rewrite frame_window_open, Ho, Hc.
  - cbn [app mainLoop fold_left]. rewrite Ho. cbn [existsb] in Hb.
    apply orb_false_iff in Hb. destruct Hb as [Hb Hr]. apply IH; try assumption.
    now rewrite frame_window_open, Ho, Hb.
Qed.

Lemma existsb_split {A : Type} (f : A -> bool) (l : list A) :
  existsb f l = true ->
  exists before a after,
    l = before ++ a :: after /\ existsb f before = false /\ f a = true.
Proof.
  induction l as [|a l IH]; cbn [existsb]; [discriminate|].
  destruct (f a) eqn:E; intros H.
  - exists [], a, l. repeat split. exact E.
  - destruct (IH H) as (before & a' & after & -> & Hb & Ha).
    exists (a :: before), a', after. repeat split; [|exact Ha].
    cbn [existsb]. now rewrite E, Hb.
Qed.

(** X3.  [main] returns -1 without running a frame when the font or the
    texture fails to load.  Otherwise the only way out of the loop is a
    [Closed] event: the program returns 0 exactly when some frame's queue
    holds one, it ends with the frame that received it, simulated in full,
    and neither a restart nor the completion of the level ends it. *)
Theorem main_ends_on_close_only :
  (forall (textureLoaded : bool) (inputs : list Input),
      main false textureLoaded inputs = Some (-1)%Z)
  /\ (forall inputs : list Input, main true false inputs = Some (-1)%Z)
  /\ (forall inputs : list Input,
        main true true inputs = Some 0%Z <-> existsb closes inputs = true)
  /\ (forall inputs : list Input,
        main true true inputs = None <-> existsb closes inputs = false)
  /\ (forall (before after : list Input) (inp : Input) (w : World),
        window_open w = true ->
        existsb closes before = false -> closes inp = true ->
        mainLoop (before ++ inp :: after) w = Some (frame inp (frames before w))).
Proof.
  assert (Hmain : forall inputs,
             main true true inputs
             = if existsb closes inputs then Some 0%Z else None).
  { intros inputs. unfold main. cbn [negb].
    destruct (existsb closes inputs) eqn:E.
    - destruct (existsb_split closes inputs E) as (before & a & after & -> & Hb & Ha).
      now rewrite (mainLoop_ends before after a initial eq_refl Hb Ha).
    - now rewrite (mainLoop_runs inputs initial eq_refl E). }
  split; [reflexivity|]. split; [reflexivity|].
  split; [|split].
  - intros inputs. rewrite Hmain. destruct (existsb closes inputs); split; congruence.
  - intros inputs. rewrite Hmain. destruct (existsb closes inputs); split; congruence.
  - apply mainLoop_ends.
Qed.

Lemma main_ends_on_close_only_witness :
  mainLoop [idle; closing; idle] initial = Some (frame closing (frames [idle] initial))
  /\ main true true [idle; closing; idle] = Some 0%Z.
Proof.
  destruct main_ends_on_close_only as (_ & _ & H3 & _ & H5).
  split.
  - exact (H5 [idle] [idle] closing initial eq_refl eq_refl eq_refl).
  - apply (proj2 (H3 [idle; closing; idle])). reflexivity.
Defined.

(** ** What a reset gives back *)

Lemma reachable_sameLevel (w : World) : reachable w -> sameLevel initial w.
Proof.
  induction 1 as [|inp w _ IH _].
  - apply sameLevel_refl.
  - eapply sameLevel_trans; [exact IH | apply frame_sameLevel].
Qed.

Lemma resetGame_reachable (w : World) :
  sameLevel initial w ->
  resetGame w
  = with_victorySprite (victorySprite w)
      (with_coinText (coinText w)
         (with_obstacles (obstacles w) (with_window_open (window_open w) initial))).
Proof.
  intros (H1 & H2 & H3 & H4 & H5 & H6 & H7). rewrite resetGame_eq.
  unfold spawned, sf.CircleShape.setPosition, sf.setCenter.
  rewrite H1, H2, H3, H4, H5, H6, H7. reflexivity.
Qed.

(** X4.  In every world the game reaches, [resetGame] gives back the world
    [main] started from, but for the obstacles, which stay where their patrol
    has taken them, the window, the text of the counter and the place of the
    victory image. *)
Theorem reset_restores_initial_world (w : World) :
  reachable w ->
  resetGame w
  = with_victorySprite (victorySprite w)
      (with_coinText (coinText w)
         (with_obstacles (obstacles w) (with_window_open (window_open w) initial))).
Proof. intros H. apply resetGame_reachable, reachable_sameLevel, H. Qed.

Lemma reset_restores_initial_world_witness :
  resetGame (frame idle initial)
  = with_victorySprite (victorySprite (frame idle initial))
      (with_coinText (coinText (frame idle initial))
         (with_obstacles (obstacles (frame idle initial))
            (with_window_open (window_open (frame idle initial)) initial))).
Proof.
  apply (reset_restores_initial_world (frame idle initial)).
  apply reachable_frame; [apply reachable_initial | reflexivity].
Defined.

(** ** The obstacles, frame after frame *)

Lemma pollEvents_fields (evs : list sf.Event) (w : World) :
  obstacles (pollEvents evs w) = obstacles w
  /\ walls (pollEvents evs w) = walls w
  /\ coinText (pollEvents evs w) = coinText w
  /\ victorySprite (pollEvents evs w) = victorySprite w.
Proof.
  rewrite pollEvents_eq.
  generalize (window_open w && negb (existsb isClosed evs)). intros b.
  destruct (existsb _ evs); [rewrite resetGame_eq|]; repeat split; reflexivity.
Qed.

Lemma simulate_obstacles (inp : Input) (w : World) :
  obstacles (simulate inp w) = map (patrol (walls w)) (obstacles w).
Proof.
  unfold simulate, beforeGoalCheck.
  destruct (movesOnlyPlayer_fields _ _ (beforeObstacleScan_player_only inp w))
    as (_ & _ & _ & Eo & Ew & _).
  rewrite <- Eo, <- Ew. generalize (beforeObstacleScan inp w). intros w2.
  destruct (closing_fields (collectCoins (obstacleScan w2)))
    as (_ & _ & _ & _ & _ & E6 & _).
  rewrite E6.
  rewrite (proj1 (proj2 (proj2 (proj2 (collectCoins_fields (obstacleScan w2)))))).
  rewrite obstacleScan_eq. reflexivity.
Qed.

Lemma frame_obstacles (inp : Input) (w : World) :
  obstacles (frame inp w)
  = if levelCompleted (pollEvents (events inp) w)
    then obstacles w
    else map (patrol (walls w)) (obstacles w).
Proof.
  destruct (pollEvents_fields (events inp) w) as (Eo & Ew & _).
  destruct (levelCompleted (pollEvents (events inp) w)) eqn:E.
  - rewrite frame_closed_gate by exact E. exact Eo.
  - unfold frame. rewrite E. cbn [negb]. rewrite simulate_obstacles.
    now rewrite Eo, Ew.
Qed.

(** X5.  A frame that simulates gives every obstacle one turn of its patrol
    ([move], then the walls), whatever the keys, the player and the resets
    of that frame; a frame that finds the level completed leaves the
    obstacles where they are. *)
Theorem every_simulated_frame_moves_the_obstacles (inp : Input) (w : World) :
  obstacles (frame inp w)
  = if levelCompleted (pollEvents (events inp) w)
    then obstacles w
    else map (patrol (walls w)) (obstacles w).
Proof. apply frame_obstacles. Qed.

Lemma reachable_obstacles (w : World) :
  reachable w ->
  exists n : nat,
    obstacles w = map (fun o => Nat.iter n (patrol (walls initial)) o) (obstacles initial).
Proof.
  induction 1 as [|inp w Hr [n IH] _].
  - exists 0%nat. cbn [Nat.iter]. now rewrite map_id.
  - rewrite frame_obstacles.
    destruct (levelCompleted _); [now exists n|].
    exists (S n). rewrite IH, map_map.
    destruct (reachable_sameLevel w Hr) as (_ & _ & _ & Ew & _). rewrite Ew.
    generalize (walls initial). intros ws.
    apply map_ext. intros o. symmetry. apply Nat.iter_succ.
Qed.

(** X6.  In every world the game reaches there are five obstacles, each
    with speed 2 and within 2 of the limits of its patrol. *)
Theorem obstacles_always_near_their_limits (w : World) :
  reachable w ->
  List.length (obstacles w) = 5%nat
  /\ Forall (fun o =>
               Obstacle.leftLimit o - 2 <= leftEdge o
               /\ rightEdge o <= Obstacle.rightLimit o + 2
               /\ Qabs (Obstacle.velocityX o) == 2)
            (obstacles w).
Proof.
  intros Hr. destruct (reachable_obstacles w Hr) as [n ->].
  split; [now rewrite length_map|].
  apply Forall_map, Forall_forall. intros o Hin.
  assert (Hb : inBounds o /\ Qabs (Obstacle.velocityX o) == 2).
  { cbn [obstacles initial In] in Hin.
    destruct Hin as [<-|[<-|[<-|[<-|[<-|[]]]]]];
      (split; [split; vm_compute; discriminate | reflexivity]). }
  destruct Hb as [Hb Hv].
  destruct (patrol_iter (walls initial) o n (inBounds_patrolInv o Hb)
              (main_obstacles_never_compound o n Hin))
    as ((I1 & I2 & _) & EL & ER & EA).
  rewrite EL, ER, EA, Hv in *. repeat split; try assumption; reflexivity.
Qed.

Lemma obstacles_always_near_their_limits_witness :
  List.length (obstacles (frame idle initial)) = 5%nat
  /\ Forall (fun o =>
               Obstacle.leftLimit o - 2 <= leftEdge o
               /\ rightEdge o <= Obstacle.rightLimit o + 2
               /\ Qabs (Obstacle.velocityX o) == 2)
            (obstacles (frame idle initial)).
Proof.
  apply (obstacles_always_near_their_limits (frame idle initial)).
  apply reachable_frame; [apply reachable_initial | reflexivity].
Defined.

(** ** Horizontal velocity *)

Lemma steer_vx (inp : Input) (w : World) :
  sf.x (velocity (steer inp w))
  = if isKeyPressed inp sf.KeyLeft then - (5)
    else if isKeyPressed inp sf.KeyRight then 5
    else sf.x (velocity w) * (9 # 10).
Proof.
  unfold steer.
  destruct (isKeyPressed inp sf.KeyLeft); [reflexivity|].
  destruct (isKeyPressed inp sf.KeyRight); reflexivity.
Qed.

Lemma jump_vx (inp : Input) (w : World) :
  sf.x (velocity (jump inp w)) = sf.x (velocity w).
Proof. unfold jump. now destruct (_ && _). Qed.

Lemma platformCollision_horizontal (P : Platform.t) (w : World) :
  sf.x (velocity (platformCollision P w)) = sf.x (velocity w)
  /\ sf.x (sf.CircleShape.getPosition (player (platformCollision P w)))
     = sf.x (sf.CircleShape.getPosition (player w)).
Proof.
  unfold platformCollision.
  destruct (sf.intersects _ _); [|split; reflexivity].
  destruct (fgtb _ _); split; reflexivity.
Qed.

Lemma platforms_pass_horizontal (ps : list Platform.t) (w : World) :
  sf.x (velocity (fold_left (fun w p => platformCollision p w) ps w))
  = sf.x (velocity w)
  /\ sf.x (sf.CircleShape.getPosition
             (player (fold_left (fun w p => platformCollision p w) ps w)))
     = sf.x (sf.CircleShape.getPosition (player w)).
Proof.
  revert w. induction ps as [|p ps IH]; intros w; cbn [fold_left].
  - split; reflexivity.
  - destruct (IH (platformCollision p w)) as [E1 E2].
    destruct (platformCollision_horizontal p w) as [F1 F2].
    split; congruence.
Qed.

Lemma wallCollision_vx (wall : Wall.t) (w : World) :
  sf.x (velocity (wallCollision wall w)) = sf.x (velocity w)
  \/ sf.x (velocity (wallCollision wall w)) = 0.
Proof.
  unfold wallCollision.
  destruct (sf.intersects _ _); [|now left].
  destruct (hitsFromLeft _ _ _); [now right|].
  destruct (hitsFromRight _ _ _); [now right | now left].
Qed.

Lemma wallCollisions_vx (ws : list Wall.t) (w : World) :
  sf.x (velocity (fold_left (fun w wall => wallCollision wall w) ws w))
  = sf.x (velocity w)
  \/ sf.x (velocity (fold_left (fun w wall => wallCollision wall w) ws w)) = 0.
Proof.
  revert w. induction ws as [|wall ws IH]; intros w; cbn [fold_left].
  - now left.
  - destruct (IH (wallCollision wall w)) as [E|E]; [|now right].
    rewrite E. apply wallCollision_vx.
Qed.

Lemma beforeObstacleScan_vx (inp : Input) (w : World) :
  sf.x (velocity (beforeObstacleScan inp w)) = sf.x (velocity (steer inp w))
  \/ sf.x (velocity (beforeObstacleScan inp w)) = 0.
Proof.
  unfold beforeObstacleScan, wallCollisions, platformCollisions.
  rewrite <- (jump_vx inp (steer inp w)).
  generalize (jump inp (steer inp w)). intros w2.
  change (sf.x (velocity w2)) with (sf.x (velocity (movePlayer (applyGravity w2)))).
  generalize (movePlayer (applyGravity w2)). intros w4.
  rewrite <- (proj1 (platforms_pass_horizontal (platforms w4) w4)).
  generalize (fold_left (fun w p => platformCollision p w) (platforms w4) w4).
  intros w5.
  rewrite <- (proj1 (platformCollision_horizontal (floor w5) w5)).
  rewrite <- floorCollision_eq. generalize (floorCollision w5). intros w6.
  apply wallCollisions_vx.
Qed.

Lemma simulate_velocity (inp : Input) (w : World) :
  velocity (simulate inp w)
  = if scanHits (obstacles (beforeObstacleScan inp w)) (beforeObstacleScan inp w)
    then sf.Vec 0 0 else velocity (beforeObstacleScan inp w).
Proof.
  unfold simulate, beforeGoalCheck.
  generalize (beforeObstacleScan inp w). intros w2.
  destruct (closing_fields (collectCoins (obstacleScan w2)))
    as (_ & _ & _ & E4 & _).
  rewrite E4.
  rewrite (proj1 (proj2 (proj2 (proj2 (proj2 (proj2 (collectCoins_fields (obstacleScan w2)))))))).
  rewrite obstacleScan_eq.
  generalize (map (patrol (walls w2)) (obstacles w2)). intros os.
  destruct (scanHits _ _); [rewrite resetGame_eq|]; reflexivity.
Qed.

Lemma simulate_vx (inp : Input) (w : World) :
  sf.x (velocity (simulate inp w)) = sf.x (velocity (steer inp w))
  \/ sf.x (velocity (simulate inp w)) = 0.
Proof.
  rewrite simulate_velocity. destruct (scanHits _ _); [now right|].
  apply beforeObstacleScan_vx.
Qed.

Lemma pollEvents_velocity (evs : list sf.Event) (w : World) :
  velocity (pollEvents evs w) = velocity w \/ velocity (pollEvents evs w) = sf.Vec 0 0.
Proof.
  rewrite pollEvents_eq.
  generalize (window_open w && negb (existsb isClosed evs)). intros b.
  destruct (existsb _ evs); [right; rewrite resetGame_eq | left]; reflexivity.
Qed.

Lemma frame_speed (inp : Input) (w : World) :
  - (5) <= sf.x (velocity w) <= 5 ->
  - (5) <= sf.x (velocity (frame inp w)) <= 5.
Proof.
  intros H. unfold frame.
  assert (H1 : - (5) <= sf.x (velocity (pollEvents (events inp) w)) <= 5).
  { destruct (pollEvents_velocity (events inp) w) as [E|E]; rewrite E; [exact H|].
    cbn. lra. }
  revert H1. generalize (pollEvents (events inp) w). intros w1 H1.
  destruct (levelCompleted w1); cbn [negb]; [exact H1|].
  destruct (simulate_vx inp w1) as [E|E]; rewrite E; [|lra].
  rewrite steer_vx.
  destruct (isKeyPressed inp sf.KeyLeft); [lra|].
  destruct (isKeyPressed inp sf.KeyRight); lra.
Qed.

(** X7.  In every world the game reaches the horizontal velocity of the
    ball lies between -5 and 5. *)
Theorem horizontal_speed_at_most_5 (w : World) :
  reachable w -> - (5) <= sf.x (velocity w) <= 5.
Proof.
  induction 1 as [|inp w _ IH _].
  - cbn. lra.
  - now apply frame_speed.
Qed.

Lemma horizontal_speed_at_most_5_witness :
  - (5) <= sf.x (velocity (frame idle initial)) <= 5.
Proof.
  apply (horizontal_speed_at_most_5 (frame idle initial)).
  apply reachable_frame; [apply reachable_initial | reflexivity].
Defined.



(** ** Jumping *)

Lemma steer_vertical (inp : Input) (w : World) :
  sf.y (velocity (steer inp w)) = sf.y (velocity w)
  /\ player (steer inp w) = player w
  /\ isOnGround (steer inp w) = isOnGround w.
Proof.
  unfold steer.
  destruct (isKeyPressed inp sf.KeyLeft); [repeat split; reflexivity|].
  destruct (isKeyPressed inp sf.KeyRight); repeat split; reflexivity.
Qed.

Lemma wallCollisions_isOnGround (ws : list Wall.t) (w : World) :
  isOnGround (fold_left (fun w wall => wallCollision wall w) ws w) = isOnGround w.
Proof.
  revert w. induction ws as [|wall ws IH]; intros w; cbn [fold_left]; [reflexivity|].
  rewrite IH. apply (wallCollision_vertical wall w).
Qed.

(** The walls leave the vertical state of the ball alone. *)
Lemma wallCollisions_frame (w : World) :
  sf.y (sf.CircleShape.getPosition (player (wallCollisions w)))
  = sf.y (sf.CircleShape.getPosition (player w))
  /\ sf.y (velocity (wallCollisions w)) = sf.y (velocity w)
  /\ isOnGround (wallCollisions w) = isOnGround w.
Proof.
  unfold wallCollisions.
  destruct (wallCollisions_vertical (walls w) w) as [E1 E2].
  split; [exact E1|]. split; [exact E2|]. apply wallCollisions_isOnGround.
Qed.

Lemma jump_physics (inp : Input) (w : World) :
  isKeyPressed inp sf.KeyUp = true -> isOnGround w = true ->
  sf.y (velocity (beforeObstacleScan inp w)) == - (23 # 2)
  /\ sf.y (sf.CircleShape.getPosition (player (beforeObstacleScan inp w)))
     == sf.y (sf.CircleShape.getPosition (player w)) - (23 # 2)
  /\ isOnGround (beforeObstacleScan inp w) = false.
Proof.
  intros Hu Hg. unfold beforeObstacleScan.
  destruct (steer_vertical inp w) as (_ & Sp & Sg).
  rewrite <- Sp. rewrite <- Sg in Hg. revert Hg. generalize (steer inp w).
  intros w1 Hg.
  assert (Hj : jump inp w1
               = with_isOnGround false
                   (with_velocity (sf.Vec (sf.x (velocity w1)) jumpStrength) w1))
    by (unfold jump; now rewrite Hu, Hg).
  rewrite Hj. clear Hj.
  set (w4 := movePlayer (applyGravity _)).
  assert (V4 : sf.y (velocity w4) == - (23 # 2)) by (subst w4; cbn; reflexivity).
  assert (Y4 : sf.y (sf.CircleShape.getPosition (player w4))
               == sf.y (sf.CircleShape.getPosition (player w1)) - (23 # 2))
    by (subst w4; cbn; unfold jumpStrength, gravity; ring).
  assert (G4 : isOnGround w4 = false) by reflexivity.
  clearbody w4.
  assert (N4 : sf.y (velocity w4) <= 0) by (rewrite V4; discriminate).
  unfold platformCollisions. rewrite platforms_pass_not_falling by exact N4.
  rewrite floorCollision_eq, platformCollision_not_falling by exact N4.
  destruct (wallCollisions_frame w4) as (E1 & E2 & E3).
  rewrite E1, E2, E3. repeat split; assumption.
Qed.

Lemma simulate_player (inp : Input) (w : World) :
  player (simulate inp w)
  = (if scanHits (obstacles (beforeObstacleScan inp w)) (beforeObstacleScan inp w)
     then spawned (player (beforeObstacleScan inp w))
     else player (beforeObstacleScan inp w))
  /\ isOnGround (simulate inp w)
     = (if scanHits (obstacles (beforeObstacleScan inp w)) (beforeObstacleScan inp w)
        then false else isOnGround (beforeObstacleScan inp w)).
Proof.
  unfold simulate, beforeGoalCheck.
  generalize (beforeObstacleScan inp w). intros w2.
  destruct (closing_fields (collectCoins (obstacleScan w2)))
    as (_ & _ & E3 & _ & E5 & _).
  rewrite E3, E5.
  destruct (collectCoins_fields (obstacleScan w2)) as (_ & F2 & _ & _ & _ & _ & F7 & _).
  rewrite F2, F7. rewrite obstacleScan_eq.
  generalize (map (patrol (walls w2)) (obstacles w2)). intros os.
  destruct (scanHits _ _); [rewrite resetGame_eq|]; split; reflexivity.
Qed.

(** A frame without a reset whose gate is open ends with the ball as the
    walls left it. *)
Lemma frame_no_reset (inp : Input) (w : World) :
  frameResets inp w = false -> levelCompleted w = false ->
  exists b : bool,
    let w2 := beforeObstacleScan inp (with_window_open b w) in
    player (frame inp w) = player w2
    /\ velocity (frame inp w) = velocity w2
    /\ isOnGround (frame inp w) = isOnGround w2.
Proof.
  intros Hn Hc. destruct (frameResets_false inp w Hn) as [Hp Hs].
  pose proof (pollEvents_quiet (events inp) w Hp) as Eq.
  exists (window_open (pollEvents (events inp) w)).
  revert Hs. unfold frame. rewrite Eq.
  generalize (window_open (pollEvents (events inp) w)). intros b Hs.
  change (levelCompleted (with_window_open b w)) with (levelCompleted w) in *.
  rewrite Hc in *. cbn [negb]. specialize (Hs eq_refl).
  destruct (simulate_player inp (with_window_open b w)) as [E1 E2].
  rewrite simulate_velocity, E1, E2, Hs. repeat split.
Qed.

(** X9.  A jump needs the ground.  With [isOnGround] false the up key
    changes nothing: two inputs that differ by that key alone give the same
    frame.  With [isOnGround] true and the up key down, a frame that
    simulates without a reset ends with the ball 11.5 higher, rising at
    11.5, and [isOnGround] false: no platform can cancel the jump in the
    frame that starts it. *)
Theorem jump_needs_the_ground :
  (forall (inp inp' : Input) (w : World),
      events inp' = events inp ->
      isKeyPressed inp' sf.KeyLeft = isKeyPressed inp sf.KeyLeft ->
      isKeyPressed inp' sf.KeyRight = isKeyPressed inp sf.KeyRight ->
      isOnGround (pollEvents (events inp) w) = false ->
      frame inp' w = frame inp w)
  /\ (forall (inp : Input) (w : World),
        frameResets inp w = false -> levelCompleted w = false ->
        isKeyPressed inp sf.KeyUp = true -> isOnGround w = true ->
        sf.y (velocity (frame inp w)) == - (23 # 2)
        /\ sf.y (sf.CircleShape.getPosition (player (frame inp w)))
           == sf.y (sf.CircleShape.getPosition (player w)) - (23 # 2)
        /\ isOnGround (frame inp w) = false).
Proof.
  split.
  - intros inp inp' w He HL HR Hg. unfold frame. rewrite He.
    revert Hg. generalize (pollEvents (events inp) w). intros w1 Hg.
    destruct (levelCompleted w1); cbn [negb]; [reflexivity|].
    unfold simulate, beforeGoalCheck, beforeObstacleScan.
    assert (Es : steer inp' w1 = steer inp w1) by (unfold steer; now rewrite HL, HR).
    rewrite Es. destruct (steer_vertical inp w1) as (_ & _ & Sg).
    rewrite <- Sg in Hg. revert Hg. generalize (steer inp w1). intros w2 Hg.
    assert (Ej : forall i, jump i w2 = w2)
      by (intros i; unfold jump; now rewrite Hg, andb_false_r).
    now rewrite !Ej.
  - intros inp w Hn Hc Hu Hg.
    destruct (frame_no_reset inp w Hn Hc) as (b & E1 & E2 & E3).
    rewrite E1, E2, E3.
    apply (jump_physics inp (with_window_open b w) Hu Hg).
Qed.

Lemma jump_needs_the_ground_witness :
  frame holdUp initial = frame idle initial
  /\ sf.y (velocity (frame holdUp onFloor)) == - (23 # 2)
  /\ isOnGround (frame holdUp onFloor) = false.
Proof.
  destruct jump_needs_the_ground as [H1 H2].
  split.
  - apply (H1 idle holdUp initial); reflexivity.
  - destruct (H2 holdUp onFloor eq_refl eq_refl eq_refl eq_refl) as (Hv & _ & Hg).
    split; assumption.
Defined.

(** ** Staying on the ground *)

Lemma platformCollision_isOnGround (P : Platform.t) (w : World) :
  isOnGround w = true -> isOnGround (platformCollision P w) = true.
Proof.
  intros H. unfold platformCollision.
  destruct (sf.intersects _ _); [|exact H].
  destruct (fgtb _ _); [reflexivity | exact H].
Qed.

Lemma platforms_pass_isOnGround (ps : list Platform.t) (w : World) :
  isOnGround w = true ->
  isOnGround (fold_left (fun w p => platformCollision p w) ps w) = true.
Proof.
  revert w. induction ps as [|p ps IH]; intros w H; cbn [fold_left]; [exact H|].
  now apply IH, platformCollision_isOnGround.
Qed.

Lemma beforeObstacleScan_isOnGround (inp : Input) (w : World) :
  isKeyPressed inp sf.KeyUp = false -> isOnGround w = true ->
  isOnGround (beforeObstacleScan inp w) = true.
Proof.
  intros Hu Hg. unfold beforeObstacleScan.
  destruct (steer_vertical inp w) as (_ & _ & Sg).
  rewrite <- Sg in Hg. revert Hg. generalize (steer inp w). intros w1 Hg.
  assert (Ej : jump inp w1 = w1) by (unfold jump; now rewrite Hu).
  rewrite Ej.
  assert (G4 : isOnGround (movePlayer (applyGravity w1)) = true) by exact Hg.
  revert G4. generalize (movePlayer (applyGravity w1)). intros w4 G4.
  rewrite (proj2 (proj2 (wallCollisions_frame _))).
  rewrite floorCollision_eq. apply platformCollision_isOnGround.
  unfold platformCollisions. now apply platforms_pass_isOnGround.
Qed.

(** X10.  [isOnGround] is cleared by a jump and by [resetGame] only: a
    frame without the up key and without a reset keeps it true, whether the
    ball still touches anything or not. *)
Theorem only_jump_or_reset_clear_isOnGround (inp : Input) (w : World) :
  frameResets inp w = false ->
  isKeyPressed inp sf.KeyUp = false ->
  isOnGround w = true ->
  isOnGround (frame inp w) = true.
Proof.
  intros Hn Hu Hg.
  destruct (levelCompleted w) eqn:Hc.
  - destruct (frameResets_false inp w Hn) as [Hp _].
    rewrite (frame_quiet_completed inp w Hc Hp).
    generalize (window_open (frame inp w)). intros b. exact Hg.
  - destruct (frame_no_reset inp w Hn Hc) as (b & _ & _ & E3).
    rewrite E3. now apply beforeObstacleScan_isOnGround.
Qed.

Lemma only_jump_or_reset_clear_isOnGround_witness :
  isOnGround (frame idle offLedge) = true.
Proof.
  apply (only_jump_or_reset_clear_isOnGround idle offLedge); reflexivity.
Defined.

(** ** The counter on the screen, the camera and the victory image *)

Lemma closing_display (c : World) :
  let e := updateCamera (goalCheck (updateCoinText c)) in
  coinText e = coinText (updateCoinText c)
  /\ victorySprite e
     = (if reachesGoal c
        then sf.Vec (sf.x (sf.getCenter (view c)) - 200) (sf.y (sf.getCenter (view c)) - 150)
        else victorySprite c).
Proof.
  unfold updateCamera, goalCheck.
  change (reachesGoal (updateCoinText c)) with (reachesGoal c).
  destruct (reachesGoal c), (levelCompleted c) eqn:E; cbn; rewrite ?E; cbn;
    split; reflexivity.
Qed.

Lemma simulate_hudShows (inp : Input) (w : World) : hudShows (simulate inp w).
Proof.
  unfold simulate, beforeGoalCheck, hudShows.
  generalize (collectCoins (obstacleScan (beforeObstacleScan inp w))). intros c.
  destruct (closing_fields c) as (_ & E2 & _).
  destruct (closing_display c) as (E & _).
  rewrite E, E2. reflexivity.
Qed.

Lemma frame_hudShows (inp : Input) (w : World) :
  (levelCompleted w = true -> hudShows w) -> hudShows (frame inp w).
Proof.
  intros H. unfold frame. rewrite pollEvents_eq.
  generalize (window_open w && negb (existsb isClosed (events inp))). intros b.
  destruct (existsb _ (events inp)).
  - assert (E : levelCompleted (with_window_open b (resetGame w)) = false)
      by (rewrite resetGame_eq; reflexivity).
    rewrite E. cbn [negb]. apply simulate_hudShows.
  - change (levelCompleted (with_window_open b w)) with (levelCompleted w).
    destruct (levelCompleted w); cbn [negb]; [|apply simulate_hudShows].
    exact (H eq_refl).
Qed.

Lemma reachable_hud (w : World) :
  reachable w -> levelCompleted w = true -> hudShows w.
Proof.
  induction 1 as [|inp w _ IH _]; intros Hc.
  - discriminate Hc.
  - now apply frame_hudShows.
Qed.

(** X11.  After every frame of the game the text of the counter reads
    "Coins: " followed by the value [coinCount] has at the end of that
    frame, also in the frames that reset and in those that find the level
    completed. *)
Theorem counter_text_shows_coinCount (inp : Input) (w : World) :
  reachable w ->
  sf.getString (coinText (frame inp w))
  = ("Coins: " ++ NilZero.string_of_int (Z.to_int (coinCount (frame inp w))))%string.
Proof.
  intros Hr. apply frame_hudShows. now apply reachable_hud.
Qed.

Lemma counter_text_shows_coinCount_witness :
  sf.getString (coinText (frame idle initial))
  = ("Coins: " ++ NilZero.string_of_int (Z.to_int (coinCount (frame idle initial))))%string.
Proof.
  apply (counter_text_shows_coinCount idle initial reachable_initial).
Defined.




Lemma simulate_victoryPlaced (inp : Input) (w : World) :
  levelCompleted w = false ->
  levelCompleted (simulate inp w) = true -> victoryPlaced (simulate inp w).
Proof.
  intros Hw. pose proof (beforeGoalCheck_levelCompleted inp w Hw) as Hc.
  unfold simulate, beforeGoalCheck, victoryPlaced in *.
  revert Hc. generalize (collectCoins (obstacleScan (beforeObstacleScan inp w))).
  intros c Hc. rewrite (proj1 (updateCoinText_fields c)) in Hc.
  pose proof (closing_view c) as Ev. cbv zeta in Ev.
  destruct (closing_fields c) as (_ & _ & _ & _ & _ & _ & _ & _ & E9).
  destruct (closing_display c) as (_ & Es).
  intros He. rewrite Ev, He, Es. rewrite E9, Hc in He. cbn [orb] in He.
  now rewrite He.
Qed.

Lemma frame_victoryPlaced (inp : Input) (w : World) :
  (levelCompleted w = true -> victoryPlaced w) ->
  levelCompleted (frame inp w) = true -> victoryPlaced (frame inp w).
Proof.
  intros H. unfold frame. rewrite pollEvents_eq.
  generalize (window_open w && negb (existsb isClosed (events inp))). intros b.
  destruct (existsb _ (events inp)).
  - assert (E : levelCompleted (with_window_open b (resetGame w)) = false)
      by (rewrite resetGame_eq; reflexivity).
    rewrite E. cbn [negb]. now apply simulate_victoryPlaced.
  - change (levelCompleted (with_window_open b w)) with (levelCompleted w).
    destruct (levelCompleted w) eqn:Hc; cbn [negb].
    + intros _. exact (H eq_refl).
    + now apply simulate_victoryPlaced.
Qed.

Lemma reachable_victoryPlaced (w : World) :
  reachable w -> levelCompleted w = true -> victoryPlaced w.
Proof.
  induction 1 as [|inp w _ IH _]; intros Hc.
  - discriminate Hc.
  - now apply frame_victoryPlaced.
Qed.

(** X13.  A frame that ends with the level completed has the victory image
    200 to the left of and 150 above the centre of the view, provided that
    was so before if the level was completed already: the frame that
    completes the level places the image and leaves the camera where it was,
    and a completed level moves neither.  Hence every world the game reaches
    is either not completed or has the image so placed. *)
Theorem victory_image_is_centred :
  (forall (inp : Input) (w : World),
      (levelCompleted w = true -> victoryPlaced w) ->
      levelCompleted (frame inp w) = true ->
      victorySprite (frame inp w)
      = sf.Vec (sf.x (sf.getCenter (view (frame inp w))) - 200)
               (sf.y (sf.getCenter (view (frame inp w))) - 150))
  /\ (forall w : World,
        reachable w ->
        levelCompleted w = false
        \/ victorySprite w
           = sf.Vec (sf.x (sf.getCenter (view w)) - 200)
                    (sf.y (sf.getCenter (view w)) - 150)).
Proof.
  split.
  - intros inp w. apply frame_victoryPlaced.
  - intros w Hr. destruct (levelCompleted w) eqn:Hc; [right | now left].
    now apply reachable_victoryPlaced.
Qed.

Lemma victory_image_is_centred_witness :
  levelCompleted (frame idle atGoal) = true
  /\ victorySprite (frame idle atGoal)
     = sf.Vec (sf.x (sf.getCenter (view (frame idle atGoal))) - 200)
              (sf.y (sf.getCenter (view (frame idle atGoal))) - 150).
Proof.
  split; [reflexivity|].
  apply (proj1 victory_image_is_centred idle atGoal); [discriminate | reflexivity].
Defined.

(** ** Where a coin is picked up *)

Ltac bounds_cases :=
  repeat match goal with
         | |- context [fltb ?a ?b] => destruct (fltb a b) eqn:?
         end;
  repeat match goal with
         | H : fltb _ _ = true |- _ => apply fltb_lt in H
         | H : fltb _ _ = false |- _ => apply fltb_ge in H
         end.

(** Two spans of non-negative length overlap, in the sense of
    [intersects], when both have a positive length and each starts before
    the other ends. *)
Lemma overlap_1d (l1 w1 l2 w2 : float) :
  0 <= w1 -> 0 <= w2 ->
  (sf.max (sf.min l1 (l1 + w1)) (sf.min l2 (l2 + w2))
   < sf.min (sf.max l1 (l1 + w1)) (sf.max l2 (l2 + w2))
   <-> 0 < w1 /\ 0 < w2 /\ l1 < l2 + w2 /\ l2 < l1 + w1).
Proof.
  intros H1 H2. unfold sf.min, sf.max.
  destruct (fltb (l1 + w1) l1) eqn:?, (fltb l1 (l1 + w1)) eqn:?,
           (fltb (l2 + w2) l2) eqn:?, (fltb l2 (l2 + w2)) eqn:?;
    bounds_cases;
    (split; intros H; [repeat split | destruct H as (? & ? & ? & ?)]; lra).
Qed.

Lemma intersects_iff (r1 r2 : sf.FloatRect) :
  0 <= sf.width r1 -> 0 <= sf.height r1 -> 0 <= sf.width r2 -> 0 <= sf.height r2 ->
  (sf.intersects r1 r2 = true
   <-> (0 < sf.width r1 /\ 0 < sf.width r2
        /\ sf.left r1 < sf.left r2 + sf.width r2
        /\ sf.left r2 < sf.left r1 + sf.width r1)
       /\ (0 < sf.height r1 /\ 0 < sf.height r2
           /\ sf.top r1 < sf.top r2 + sf.height r2
           /\ sf.top r2 < sf.top r1 + sf.height r1)).
Proof.
  intros W1 H1 W2 H2. unfold sf.intersects. cbv zeta.
  rewrite andb_true_iff, !fltb_lt.
  rewrite (overlap_1d _ _ _ _ W1 W2), (overlap_1d _ _ _ _ H1 H2). reflexivity.
Qed.

(** X14.  For radii that are not negative, a coin is collected exactly when
    both radii are positive and the square around the ball and the square
    around the coin overlap with a positive area: squares that only touch
    along an edge do not count. *)
Theorem coin_is_collected_when_squares_overlap (p : sf.CircleShape.t) (c : Coin.t) :
  0 <= sf.CircleShape.getRadius p ->
  0 <= sf.CircleShape.getRadius (Coin.shape c) ->
  let px := sf.x (sf.CircleShape.getPosition p) in
  let py := sf.y (sf.CircleShape.getPosition p) in
  let cx := sf.x (sf.CircleShape.getPosition (Coin.shape c)) in
  let cy := sf.y (sf.CircleShape.getPosition (Coin.shape c)) in
  let rp := sf.CircleShape.getRadius p in
  let rc := sf.CircleShape.getRadius (Coin.shape c) in
  Coin.isCollected p c = true
  <-> 0 < rp /\ 0 < rc
      /\ px < cx + 2 * rc /\ cx < px + 2 * rp
      /\ py < cy + 2 * rc /\ cy < py + 2 * rp.
Proof.
  intros Hp Hc. cbv zeta. unfold Coin.isCollected.
  rewrite intersects_iff
    by (cbn [sf.CircleShape.getGlobalBounds sf.left sf.top sf.width sf.height]; lra).
  cbn [sf.CircleShape.getGlobalBounds sf.left sf.top sf.width sf.height].
  split; [intros ((? & ? & ? & ?) & (? & ? & ? & ?)) | intros (? & ? & ? & ? & ? & ?)];
    repeat split; lra.
Qed.

Lemma coin_is_collected_when_squares_overlap_witness :
  Coin.isCollected (sf.CircleShape.Make 20 (sf.Vec 495 490)) (Coin.new 10 500 500) = true
  /\ Coin.isCollected (sf.CircleShape.Make 20 (sf.Vec 460 490)) (Coin.new 10 500 500) = false.
Proof.
  split.
  - apply (proj2 (coin_is_collected_when_squares_overlap
                    (sf.CircleShape.Make 20 (sf.Vec 495 490)) (Coin.new 10 500 500)
                    ltac:(discriminate) ltac:(discriminate))).
    repeat split; reflexivity.
  - apply not_true_iff_false. intros H.
    apply (proj1 (coin_is_collected_when_squares_overlap
                    (sf.CircleShape.Make 20 (sf.Vec 460 490)) (Coin.new 10 500 500)
                    ltac:(discriminate) ltac:(discriminate))) in H.
    destruct H as (_ & _ & _ & H & _). revert H. cbn. discriminate.
Defined.

(** ** No coin under the ball *)

Lemma remaining_not_collected (p : sf.CircleShape.t) (cs : list Coin.t) :
  Forall (fun c => Coin.isCollected p c = false) (remaining p cs).
Proof.
  apply Forall_forall. intros c Hin. unfold remaining in Hin.
  apply filter_In in Hin. destruct Hin as [_ H]. now apply negb_true_iff in H.
Qed.

Lemma simulate_no_coin_under_ball (inp : Input) (w : World) :
  Forall (fun c => Coin.isCollected (player (simulate inp w)) c = false)
         (coins (simulate inp w)).
Proof.
  unfold simulate, beforeGoalCheck.
  generalize (obstacleScan (beforeObstacleScan inp w)). intros w3.
  destruct (closing_fields (collectCoins w3)) as (E1 & _ & E3 & _).
  rewrite E1, E3, collectCoins_coins.
  rewrite (proj1 (proj2 (collectCoins_fields w3))).
  apply remaining_not_collected.
Qed.

Lemma frame_no_coin_under_ball (inp : Input) (w : World) :
  completedClean w ->
  Forall (fun c => Coin.isCollected (player (frame inp w)) c = false)
         (coins (frame inp w)).
Proof.
  intros H. pose proof (pollEvents_completedClean (events inp) w H) as H1.
  unfold frame. revert H1. generalize (pollEvents (events inp) w). intros w1 H1.
  destruct (levelCompleted w1) eqn:E; cbn [negb].
  - rewrite (H1 E). constructor.
  - apply simulate_no_coin_under_ball.
Qed.

(** X15.  At the end of every frame of the game no coin left on the board
    overlaps the ball: a coin the ball touches is gone in the same frame,
    also when the frame has put the ball back on the spawn point. *)
Theorem no_coin_left_under_the_ball (inp : Input) (w : World) :
  reachable w ->
  Forall (fun c => Coin.isCollected (player (frame inp w)) c = false)
         (coins (frame inp w)).
Proof.
  intros Hr. apply frame_no_coin_under_ball, reachable_completedClean, Hr.
Qed.

Lemma no_coin_left_under_the_ball_witness :
  Forall (fun c => Coin.isCollected (player (frame idle initial)) c = false)
         (coins (frame idle initial)).
Proof.
  apply (no_coin_left_under_the_ball idle initial reachable_initial).
Defined.

(** ** A landing only lifts the ball *)

Lemma rectangle_bounds (r : sf.RectangleShape.t) :
  0 <= sf.width (sf.RectangleShape.getGlobalBounds r)
  /\ 0 <= sf.height (sf.RectangleShape.getGlobalBounds r)
  /\ (0 <= sf.y (sf.RectangleShape.getSize r) ->
      sf.top (sf.RectangleShape.getGlobalBounds r)
      == sf.y (sf.RectangleShape.getPosition r)).
Proof.
  unfold sf.RectangleShape.getGlobalBounds. cbn [sf.width sf.height sf.top].
  pose proof (max_ge_l 0 (sf.x (sf.RectangleShape.getSize r))).
  pose proof (min_le_l 0 (sf.x (sf.RectangleShape.getSize r))).
  pose proof (max_ge_l 0 (sf.y (sf.RectangleShape.getSize r))).
  pose proof (min_le_l 0 (sf.y (sf.RectangleShape.getSize r))).
  repeat split; try lra.
  intros Hh. unfold sf.min. apply fltb_ge in Hh. rewrite Hh. ring.
Qed.

Lemma platformCollision_lifts (P : Platform.t) (w : World) :
  0 <= sf.CircleShape.getRadius (player w) ->
  0 <= sf.y (sf.RectangleShape.getSize (Platform.shape P)) ->
  sf.y (sf.CircleShape.getPosition (player (platformCollision P w)))
  <= sf.y (sf.CircleShape.getPosition (player w))
  /\ sf.CircleShape.getRadius (player (platformCollision P w))
     = sf.CircleShape.getRadius (player w).
Proof.
  intros Hr Hh. unfold platformCollision.
  destruct (sf.intersects _ _) eqn:Hi; [|split; [lra | reflexivity]].
  destruct (fgtb _ _); [|split; [lra | reflexivity]].
  destruct (rectangle_bounds (Platform.shape P)) as (Bw & Bh & Bt).
  apply intersects_iff in Hi;
    try (cbn [sf.CircleShape.getGlobalBounds sf.width sf.height]; lra);
    try assumption.
  destruct Hi as (_ & _ & _ & _ & Ht).
  cbn [sf.CircleShape.getGlobalBounds sf.top sf.height] in Ht.
  specialize (Bt Hh). split; [|reflexivity]. cbn. lra.
Qed.

Lemma platforms_pass_lifts (ps : list Platform.t) (w : World) :
  0 <= sf.CircleShape.getRadius (player w) ->
  Forall (fun P => 0 <= sf.y (sf.RectangleShape.getSize (Platform.shape P))) ps ->
  sf.y (sf.CircleShape.getPosition
          (player (fold_left (fun w p => platformCollision p w) ps w)))
  <= sf.y (sf.CircleShape.getPosition (player w))
  /\ sf.CircleShape.getRadius (player (fold_left (fun w p => platformCollision p w) ps w))
     = sf.CircleShape.getRadius (player w).
Proof.
  revert w. induction ps as [|p ps IH]; intros w Hr Hf; cbn [fold_left].
  - split; [lra | reflexivity].
  - inversion Hf as [|? ? Hp Hps]; subst.
    destruct (platformCollision_lifts p w Hr Hp) as [L1 L2].
    assert (Hr' : 0 <= sf.CircleShape.getRadius (player (platformCollision p w)))
      by (rewrite L2; exact Hr).
    destruct (IH (platformCollision p w) Hr' Hps) as [M1 M2].
    split; [lra | congruence].
Qed.

(** X16.  With a radius that is not negative and platforms and a floor
    whose heights are not negative, the platform pass never moves the ball
    down nor sideways: at its end [y] is at most what it was, and [x] and
    the horizontal velocity are what they were.  A ball that falls into a
    platform from the side is lifted on top of it as well. *)
Theorem landing_only_lifts_the_ball (w : World) :
  0 <= sf.CircleShape.getRadius (player w) ->
  Forall (fun P => 0 <= sf.y (sf.RectangleShape.getSize (Platform.shape P)))
         (platforms w) ->
  0 <= sf.y (sf.RectangleShape.getSize (Platform.shape (floor w))) ->
  let w' := floorCollision (platformCollisions w) in
  sf.y (sf.CircleShape.getPosition (player w'))
  <= sf.y (sf.CircleShape.getPosition (player w))
  /\ sf.x (sf.CircleShape.getPosition (player w'))
     = sf.x (sf.CircleShape.getPosition (player w))
  /\ sf.x (velocity w') = sf.x (velocity w).
Proof.
  intros Hr Hp Hf w'. subst w'. unfold platformCollisions.
  destruct (platforms_pass_lifts (platforms w) w Hr Hp) as [L1 L2].
  destruct (platforms_pass_horizontal (platforms w) w) as [V1 X1].
  rewrite <- (platforms_pass_floor (platforms w) w) in Hf.
  rewrite <- L2 in Hr. rewrite <- V1, <- X1.
  revert Hr Hf L1.
  generalize (fold_left (fun w p => platformCollision p w) (platforms w) w).
  intros w5 Hr Hf L1. rewrite floorCollision_eq.
  destruct (platformCollision_lifts (floor w5) w5 Hr Hf) as [M1 _].
  destruct (platformCollision_horizontal (floor w5) w5) as [V2 X2].
  repeat split; [lra | exact X2 | exact V2].
Qed.

Lemma landing_only_lifts_the_ball_witness :
  sf.y (sf.CircleShape.getPosition
          (player (floorCollision (platformCollisions abovePlatform))))
  <= sf.y (sf.CircleShape.getPosition (player abovePlatform)).
Proof.
  apply (landing_only_lifts_the_ball abovePlatform).
  - discriminate.
  - repeat constructor; discriminate.
  - discriminate.
Defined.

(** ** What a patrol leaves alone *)

